(** * zenway: the navigation screen's progress simulator and map controller

    A shallow embedding of [frontend/app/components/NavigationView.tsx] and
    [frontend/app/components/RealMap.tsx].

    Conventions of the embedding.
    - A JavaScript [number] is an exact rational ([Q]); equalities between
      numbers are stated with [==].  The special values (NaN, the infinities,
      the negative zero) and binary rounding are outside the model, so a
      division is only meaningful with a non-zero divisor: statements that
      go through [elapsed / durationMs] carry the Route invariant
      [0 < duration].
    - React state cells and refs become record fields, the effects become
      functions on those records, and every call that leaves the component
      (a state setter, [requestAnimationFrame], [cancelAnimationFrame],
      [onComplete], [console.error], the Leaflet viewport calls) is recorded
      in a log in program order.
    - A string is a sequence of 8-bit characters and [toLowerCase] folds
      the letters A to Z; the needles the code searches for are ASCII.
    - [undefined], [null] and an absent optional property are [None].
    - The host is taken to pass the same props from one render to the
      next, and values are of the types the TypeScript declarations give
      them, except where a definition says otherwise. *)

From Stdlib Require Import QArith Qminmax Qround Qabs ZArith List Lia Lqa Bool
  String Ascii.
Import ListNotations.

Local Open Scope Q_scope.

(** ** The JavaScript built-ins the two components call *)

Module Js.

(** [a < b] on numbers. *)
Definition ltb (a b : Q) : bool := negb (Qle_bool b a).

(** [Math.min(a, b)] and [Math.max(a, b)]. *)
Definition Math_min (a b : Q) : Q := Qmin a b.
Definition Math_max (a b : Q) : Q := Qmax a b.

(** [Math.round(x)]: the integer nearest to [x], a tie going up. *)
Definition Math_round (x : Q) : Q := inject_Z (Qfloor (x + (1 # 2))).

(** [Math.floor(x)]. *)
Definition Math_floor (x : Q) : Q := inject_Z (Qfloor x).

(** [Number(x.toFixed(2))].  [toFixed] works on the absolute value, takes
    the integer [n] with [n / 100] nearest to it (the larger one on a tie)
    and prints sign, integer part and two decimals; from [1e21] on it
    prints the number itself.  [Number] reads the digits back. *)
Definition toFixed2 (x : Q) : Q :=
  let a := Qabs x in
  if Qle_bool (inject_Z (10 ^ 21)) a then x
  else
    let n := Qfloor (a * 100 + (1 # 2)) in
    if ltb x 0 then - (inject_Z n / 100) else inject_Z n / 100.

(** [d || dflt] on an optional number: [undefined] and [0] are falsy. *)
Definition orNumber (d : option Q) (dflt : Q) : Q :=
  match d with
  | Some q => if Qeq_bool q 0 then dflt else q
  | None => dflt
  end.

(** [c.toLowerCase()] on one character, and on a string. *)
Definition lowerAscii (c : ascii) : ascii :=
  let n := nat_of_ascii c in
  if (Nat.leb 65 n && Nat.leb n 90)%bool then ascii_of_nat (n + 32) else c.

Fixpoint toLowerCase (s : string) : string :=
  match s with
  | EmptyString => EmptyString
  | String c rest => String (lowerAscii c) (toLowerCase rest)
  end.

(** [s.includes(needle)]. *)
Fixpoint startsWith (needle s : string) : bool :=
  match needle, s with
  | EmptyString, _ => true
  | String _ _, EmptyString => false
  | String a n', String b s' => (Ascii.eqb a b && startsWith n' s')%bool
  end.

Fixpoint includes (s needle : string) : bool :=
  (startsWith needle s ||
   match s with
   | EmptyString => false
   | String _ rest => includes rest needle
   end)%bool.

End Js.

(** ** [../types]: the part of [Route] the two components read *)

Module Segment.
Record t : Type := mk {
  distance : Q;
  duration : Q;
  startPoint : string;
  endPoint : string;
  isLastMile : bool
}.
End Segment.

Record LatLngPoint : Type := { lat : Q; lng : Q }.

Inductive RouteType : Type := fast | calm.

Module Route.
(** Modelled from the spec: the declaration of [Route] in [../types] is not
    part of the two components; the fields are the ones they read, an
    optional one being an [option]. *)
Record t : Type := mk {
  id : string;
  type : RouteType;
  duration : Q;
  distance : option Q;
  walkingSegments : option (list Segment.t);
  transportModes : option (list string);
  destinationCoords : option LatLngPoint;
  pathCoordinates : option (list LatLngPoint)
}.
End Route.

(** ** NavigationView.tsx: the progress simulator *)

Module NavigationView.

(** What the component does to the outside, in program order. *)
Inductive event : Type :=
| SetProgress (fraction : Q)
| SetRemainingMinutes (m : Q)
| SetRemainingDistance (d : Q)
| SetCurrentSegmentIndex (i : nat)
| RequestAnimationFrame (handle : nat)
| CancelAnimationFrame (handle : nat)
| OnComplete.

(** The component: its state cells, the browser's queue of animation-frame
    callbacks (each one a [tick] closure, identified by the [start] it
    captured), the handle the effect's cleanup captured, and the log. *)
Record Component : Type := {
  progress : Q;
  remainingMinutes : Q;
  remainingDistance : Q;
  currentSegmentIndex : nat;
  nextHandle : nat;
  frameQueue : list (nat * Q);
  cleanupHandle : option nat;
  log : list event
}.

(** [route.distance || 0.8] *)
Definition distanceOrDefault (route : Route.t) : Q :=
  Js.orNumber (Route.distance route) (8 # 10).

(** Lines 73-84: the route's segments, or one last-mile segment. *)
Definition segments (route : Route.t) : list Segment.t :=
  match Route.walkingSegments route with
  | Some (s :: rest) => s :: rest
  | _ =>
      [ Segment.mk (distanceOrDefault route) (Route.duration route)
          "Start" "Destination" true ]
  end.

(** Lines 73-84 and 126: whether [segments] is the same array from one
    render to the next.  It is [route.walkingSegments] itself when that is
    non-empty; otherwise it is an array literal, a new object at every
    render, and being a dependency of the effect it makes the effect run
    again after every render. *)
Definition segmentsStable (route : Route.t) : bool :=
  match Route.walkingSegments route with
  | Some (_ :: _) => true
  | _ => false
  end.

(** Line 87. *)
Definition durationMs (route : Route.t) : Q := Route.duration route * 60 * 1000.

(** Line 93. *)
Definition fractionAt (route : Route.t) (elapsed : Q) : Q :=
  Js.Math_min (elapsed / durationMs route) 1.

(** Lines 96-98. *)
Definition remainingMinutesAt (route : Route.t) (fraction : Q) : Q :=
  Js.Math_max (Js.Math_round (Route.duration route * (1 - fraction))) 0.

(** Lines 99-104. *)
Definition remainingDistanceAt (route : Route.t) (fraction : Q) : Q :=
  Js.Math_max (Js.toFixed2 (distanceOrDefault route * (1 - fraction))) 0.

(** Line 107: [segments.reduce((s, seg) => s + seg.duration, 0)]. *)
Definition totalDur (segs : list Segment.t) : Q :=
  fold_left (fun s seg => s + Segment.duration seg) segs 0.

(** Lines 109-115: the loop from index [i] on with [cum] accumulated so
    far; [Some i] is the index handed to [setCurrentSegmentIndex], [None]
    a loop that ends without the call. *)
Fixpoint scanSegments (segs : list Segment.t) (i : nat) (cum target : Q)
  : option nat :=
  match segs with
  | [] => None
  | seg :: rest =>
      let cum' := cum + Segment.duration seg in
      if Qle_bool target cum' then Some i
      else scanSegments rest (S i) cum' target
  end.

(** Lines 106-115. *)
Definition activeSegment (segs : list Segment.t) (fraction : Q) : option nat :=
  scanSegments segs 0%nat 0 (totalDur segs * fraction).

Definition emit (e : event) (c : Component) : Component :=
  {| progress := progress c;
     remainingMinutes := remainingMinutes c;
     remainingDistance := remainingDistance c;
     currentSegmentIndex := currentSegmentIndex c;
     nextHandle := nextHandle c;
     frameQueue := frameQueue c;
     cleanupHandle := cleanupHandle c;
     log := log c ++ [e] |}.

Definition setProgress (f : Q) (c : Component) : Component :=
  let c := emit (SetProgress f) c in
  {| progress := f;
     remainingMinutes := remainingMinutes c;
     remainingDistance := remainingDistance c;
     currentSegmentIndex := currentSegmentIndex c;
     nextHandle := nextHandle c;
     frameQueue := frameQueue c;
     cleanupHandle := cleanupHandle c;
     log := log c |}.

Definition setRemainingMinutes (m : Q) (c : Component) : Component :=
  let c := emit (SetRemainingMinutes m) c in
  {| progress := progress c;
     remainingMinutes := m;
     remainingDistance := remainingDistance c;
     currentSegmentIndex := currentSegmentIndex c;
     nextHandle := nextHandle c;
     frameQueue := frameQueue c;
     cleanupHandle := cleanupHandle c;
     log := log c |}.

Definition setRemainingDistance (d : Q) (c : Component) : Component :=
  let c := emit (SetRemainingDistance d) c in
  {| progress := progress c;
     remainingMinutes := remainingMinutes c;
     remainingDistance := d;
     currentSegmentIndex := currentSegmentIndex c;
     nextHandle := nextHandle c;
     frameQueue := frameQueue c;
     cleanupHandle := cleanupHandle c;
     log := log c |}.

Definition setCurrentSegmentIndex (i : nat) (c : Component) : Component :=
  let c := emit (SetCurrentSegmentIndex i) c in
  {| progress := progress c;
     remainingMinutes := remainingMinutes c;
     remainingDistance := remainingDistance c;
     currentSegmentIndex := i;
     nextHandle := nextHandle c;
     frameQueue := frameQueue c;
     cleanupHandle := cleanupHandle c;
     log := log c |}.

(** [requestAnimationFrame(tick)] for the closure that captured [start]:
    a fresh handle, the callback queued for the next frame. *)
Definition requestAnimationFrame (start : Q) (c : Component)
  : nat * Component :=
  let h := nextHandle c in
  let c := emit (RequestAnimationFrame h) c in
  (h, {| progress := progress c;
         remainingMinutes := remainingMinutes c;
         remainingDistance := remainingDistance c;
         currentSegmentIndex := currentSegmentIndex c;
         nextHandle := S h;
         frameQueue := frameQueue c ++ [(h, start)];
         cleanupHandle := cleanupHandle c;
         log := log c |}).

(** [cancelAnimationFrame(h)]: the callback with that handle, if it is
    still queued, is dropped. *)
Definition cancelAnimationFrame (h : nat) (c : Component) : Component :=
  let c := emit (CancelAnimationFrame h) c in
  {| progress := progress c;
     remainingMinutes := remainingMinutes c;
     remainingDistance := remainingDistance c;
     currentSegmentIndex := currentSegmentIndex c;
     nextHandle := nextHandle c;
     frameQueue := filter (fun cb => negb (Nat.eqb (fst cb) h)) (frameQueue c);
     cleanupHandle := cleanupHandle c;
     log := log c |}.

Definition onComplete (c : Component) : Component := emit OnComplete c.

(** Lines 90-122: one call of [tick], the closure over [route], [segments]
    and [start], when [performance.now()] returns [now]. *)
Definition tick (route : Route.t) (start now : Q) (c : Component) : Component :=
  let elapsed := now - start in
  let fraction := fractionAt route elapsed in
  let c := setProgress fraction c in
  let c := setRemainingMinutes (remainingMinutesAt route fraction) c in
  let c := setRemainingDistance (remainingDistanceAt route fraction) c in
  let c :=
    match activeSegment (segments route) fraction with
    | Some i => setCurrentSegmentIndex i c
    | None => c
    end in
  if Js.ltb fraction 1 then snd (requestAnimationFrame start c)
  else onComplete c.

(** Lines 52-57 and 86-126: the first render and the effect it runs, when
    [performance.now()] returns [now]. *)
Definition mount (route : Route.t) (now : Q) : Component :=
  let c := {| progress := 0;
              remainingMinutes := Route.duration route;
              remainingDistance := distanceOrDefault route;
              currentSegmentIndex := 0%nat;
              nextHandle := 1%nat;
              frameQueue := [];
              cleanupHandle := None;
              log := [] |} in
  let '(h, c) := requestAnimationFrame now c in
  {| progress := progress c;
     remainingMinutes := remainingMinutes c;
     remainingDistance := remainingDistance c;
     currentSegmentIndex := currentSegmentIndex c;
     nextHandle := nextHandle c;
     frameQueue := frameQueue c;
     cleanupHandle := Some h;
     log := log c |}.

(** One animation frame at time [now]: the browser takes the callbacks
    queued so far and runs them in order; what they queue waits for the
    frame after. *)
Definition frame (route : Route.t) (now : Q) (c : Component) : Component :=
  let due := frameQueue c in
  let c := {| progress := progress c;
              remainingMinutes := remainingMinutes c;
              remainingDistance := remainingDistance c;
              currentSegmentIndex := currentSegmentIndex c;
              nextHandle := nextHandle c;
              frameQueue := [];
              cleanupHandle := cleanupHandle c;
              log := log c |} in
  fold_left (fun c cb => tick route (snd cb) now c) due c.

(** Line 125: the effect's cleanup, run when the screen is left. *)
Definition unmount (c : Component) : Component :=
  match cleanupHandle c with
  | Some h => cancelAnimationFrame h c
  | None => c
  end.

(** One execution of the effect: the frames and the teardown the browser
    delivers after the mount, while the effect does not run a second time.
    The effect runs a second time after a render in which one of its
    dependencies changed.  The host is taken to pass the same [route] and
    [onComplete] throughout, so that happens exactly when a tick has
    changed a state cell and [segmentsStable] is false; that second
    execution is [rerunEffect] below and is not a step of [run].  So [run]
    describes the mounted component on a route with [segmentsStable], and
    on any route up to the first tick and after a teardown that came
    before it. *)
Inductive action : Type :=
| Frame (now : Q)
| Unmount.

Definition step (route : Route.t) (c : Component) (a : action) : Component :=
  match a with
  | Frame now => frame route now c
  | Unmount => unmount c
  end.

Definition run (route : Route.t) (start : Q) (actions : list action) : Component :=
  fold_left (step route) actions (mount route start).

(** Readings of the log. *)
Definition isOnComplete (e : event) : bool :=
  match e with OnComplete => true | _ => false end.

Definition completions (c : Component) : nat :=
  List.length (filter isOnComplete (log c)).

Fixpoint progressValues (l : list event) : list Q :=
  match l with
  | [] => []
  | SetProgress f :: rest => f :: progressValues rest
  | _ :: rest => progressValues rest
  end.

(** Lines 128-129: [segments[currentSegmentIndex]] and the test for the
    last segment. *)
Definition currentSegment (route : Route.t) (c : Component)
  : option Segment.t :=
  nth_error (segments route) (currentSegmentIndex c).

Definition isLastSegment (route : Route.t) (c : Component) : bool :=
  Nat.eqb (currentSegmentIndex c) (List.length (segments route) - 1).

(** Lines 132-138. *)
Definition formatSegmentLabel (route : Route.t) (c : Component) : string :=
  match currentSegment route c with
  | None => ""
  | Some seg =>
      if (isLastSegment route c && Segment.isLastMile seg)%bool
      then "Last mile walk to destination"
      else (Segment.startPoint seg ++ " → " ++ Segment.endPoint seg)%string
  end.

(** Line 189: the badge of the header. *)
Definition segmentBadge (route : Route.t) (c : Component) : string :=
  if isLastSegment route c then "Walk segment" else "MRT segment".

(** Lines 278-280: the line of the footer. *)
Definition footerMessage (c : Component) : string :=
  if Js.ltb (progress c) 1
  then "Stay with your breath, you’re doing great."
  else "Arrived mindfully. Nice work!".

(** Lines 87-125: the body of the effect when [performance.now()] returns
    [now]: it queues a tick that captures [now] as its start and keeps the
    handle for its cleanup. *)
Definition runEffect (now : Q) (c : Component) : Component :=
  let '(h, c) := requestAnimationFrame now c in
  {| progress := progress c;
     remainingMinutes := remainingMinutes c;
     remainingDistance := remainingDistance c;
     currentSegmentIndex := currentSegmentIndex c;
     nextHandle := nextHandle c;
     frameQueue := frameQueue c;
     cleanupHandle := Some h;
     log := log c |}.

(** Line 126: one of the dependencies changed between two renders; React
    runs the cleanup of the previous run of the effect and then the effect
    again. *)
Definition rerunEffect (now : Q) (c : Component) : Component :=
  runEffect now (unmount c).

End NavigationView.

(** ** RealMap.tsx: geometry resolver, transit-stop projector, map controller *)

Module RealMap.

(** The three entries of [transitIcons]. *)
Inductive TransitIcon : Type := walk | bus | rail.

(** [coords[k]] is [undefined] outside the array, hence the [option]. *)
Record TransitStop : Type := {
  point : option LatLngPoint;
  icon : TransitIcon
}.

Record Props : Type := {
  selectedRoute : option Route.t;
  destinationCoords : option LatLngPoint;
  recenterToken : option Z
}.

(** Leaflet, as far as the component drives it. *)
Inductive MarkerIcon : Type :=
| UserIcon
| DestinationIcon
| StopIcon (i : TransitIcon).

Inductive Layer : Type :=
| Polyline (latlngs : list (Q * Q))
| Marker (at_ : Q * Q) (i : MarkerIcon).

(** [polyline.getBounds()]: the smallest box around the points; the
    bounds of no point at all are Leaflet's invalid bounds. *)
Inductive LatLngBounds : Type :=
| InvalidBounds
| Box (south west north east : Q).

Fixpoint extend (south west north east : Q) (latlngs : list (Q * Q))
  : LatLngBounds :=
  match latlngs with
  | [] => Box south west north east
  | (la, lo) :: rest =>
      extend (Qmin south la) (Qmin west lo) (Qmax north la) (Qmax east lo) rest
  end.

Definition getBounds (latlngs : list (Q * Q)) : LatLngBounds :=
  match latlngs with
  | [] => InvalidBounds
  | (la, lo) :: rest => extend la lo la lo rest
  end.

Inductive ViewCall : Type :=
| FitBounds (b : LatLngBounds) (padding : Z * Z)
| SetView (center : Q * Q) (zoom : Z).

(** A map created by [L.map(container, {center, zoom})] and the viewport
    calls made on it since. *)
Record LMap : Type := {
  initialCenter : Q * Q;
  initialZoom : Z;
  viewCalls : list ViewCall
}.

(** State cells ([userLocation], [routeLine]), refs ([mapRef],
    [layerGroupRef], [firstDrawRef], [lastRecenterTokenRef]) and what
    went to [console.error]. *)
Record State : Type := {
  userLocation : option LatLngPoint;
  routeLine : list LatLngPoint;
  mapRef : option LMap;
  layerGroupRef : option (list Layer);
  firstDrawRef : bool;
  lastRecenterTokenRef : option Z;
  console : list string
}.

(** Lines 31-41. *)
Definition initial : State :=
  {| userLocation := None;
     routeLine := [];
     mapRef := None;
     layerGroupRef := None;
     firstDrawRef := true;
     lastRecenterTokenRef := None;
     console := [] |}.

(** [a || b] on optional objects. *)
Definition orElse {A : Type} (a b : option A) : option A :=
  match a with Some _ => a | None => b end.

(** Lines 43-44. *)
Definition destinationPoint (p : Props) : option LatLngPoint :=
  orElse
    (match selectedRoute p with
     | Some r => Route.destinationCoords r
     | None => None
     end)
    (destinationCoords p).

(** [selectedRoute?.pathCoordinates] when its [length] is truthy. *)
Definition precomputedPath (p : Props) : option (list LatLngPoint) :=
  match selectedRoute p with
  | Some r =>
      match Route.pathCoordinates r with
      | Some (q :: qs) => Some (q :: qs)
      | _ => None
      end
  | None => None
  end.

Definition setUserLocation (u : option LatLngPoint) (s : State) : State :=
  {| userLocation := u;
     routeLine := routeLine s;
     mapRef := mapRef s;
     layerGroupRef := layerGroupRef s;
     firstDrawRef := firstDrawRef s;
     lastRecenterTokenRef := lastRecenterTokenRef s;
     console := console s |}.

Definition setRouteLine (l : list LatLngPoint) (s : State) : State :=
  {| userLocation := userLocation s;
     routeLine := l;
     mapRef := mapRef s;
     layerGroupRef := layerGroupRef s;
     firstDrawRef := firstDrawRef s;
     lastRecenterTokenRef := lastRecenterTokenRef s;
     console := console s |}.

Definition consoleError (msg : string) (s : State) : State :=
  {| userLocation := userLocation s;
     routeLine := routeLine s;
     mapRef := mapRef s;
     layerGroupRef := layerGroupRef s;
     firstDrawRef := firstDrawRef s;
     lastRecenterTokenRef := lastRecenterTokenRef s;
     console := console s ++ [msg] |}.

(** Lines 69-83: the two callbacks of [getCurrentPosition]. *)
Definition geolocated (pos : option LatLngPoint) (s : State) : State :=
  match pos with
  | Some q => setUserLocation (Some q) s
  | None => consoleError "Geolocation error" s
  end.

(** *** Geometry resolver (lines 86-118) *)

(** The request [fetch] is given: origin and destination of the foot
    route. *)
Record Request : Type := {
  origin : LatLngPoint;
  target : LatLngPoint
}.

(** How the promise chain settles before its [.catch].
    [Rejected name]: the chain rejects with an error of that name.  A
    network failure is a [TypeError], unparsable JSON a [SyntaxError], a
    superseded request an [AbortError]; and a [TypeError] is also what the
    [.then] handler itself throws on a body that is [null], on coordinates
    that are not an array, and on an array with a [null] entry.
    [Json None]: the body is not [null] and
    [routes?.[0]?.geometry?.coordinates] is absent or falsy, as in the
    service's answer when it finds no route.
    [Json (Some l)]: the coordinates are an array of [[lng, lat]] pairs of
    numbers, as the service's GeoJSON geometry has them.  An array whose
    entries can be indexed but hold no numbers would be stored as points
    without coordinates; [LatLngPoint] has no such value and the model
    leaves that answer out. *)
Inductive FetchOutcome : Type :=
| Rejected (errorName : string)
| Json (coordinates : option (list (Q * Q))).

(** The synchronous part of the effect: it stores a line, or it issues
    one request and stores nothing. *)
Definition resolveRoute (p : Props) (s : State) : State * option Request :=
  match precomputedPath p with
  | Some path => (setRouteLine path s, None)
  | None =>
      match userLocation s, destinationPoint p with
      | Some u, Some d => (s, Some {| origin := u; target := d |})
      | _, _ => (setRouteLine [] s, None)
      end
  end.

(** The [.then] and [.catch] handlers of the request. *)
Definition routeSettled (o : FetchOutcome) (s : State) : State :=
  match o with
  | Json None => s
  | Json (Some coordinates) =>
      setRouteLine
        (map (fun c => {| lat := snd c; lng := fst c |}) coordinates) s
  | Rejected errorName =>
      if String.eqb errorName "AbortError" then s
      else consoleError "Routing error:" s
  end.

(** The effect as a whole, for a request that settles with [o] before
    anything else happens. *)
Definition resolveWith (p : Props) (o : FetchOutcome) (s : State) : State :=
  match resolveRoute p s with
  | (s', Some _) => routeSettled o s'
  | (s', None) => s'
  end.

(** A lookup that failed: a rejection other than an abort, or data
    without the coordinates. *)
Definition lookupFailed (o : FetchOutcome) : bool :=
  match o with
  | Rejected errorName => negb (String.eqb errorName "AbortError")
  | Json None => true
  | Json (Some _) => false
  end.

(** *** Transit-stop projector (lines 137-170) *)

(** Lines 154-161. *)
Definition iconFor (mode : string) : TransitIcon :=
  let normalized := Js.toLowerCase mode in
  if Js.includes normalized "bus" then bus
  else if (Js.includes normalized "metro"
           || Js.includes normalized "mrt"
           || Js.includes normalized "rail")%bool then rail
  else walk.

(** [modes.map((mode, idx) => f(mode, idx))], from index [idx] on. *)
Fixpoint mapWithIndex {A B : Type} (f : A -> nat -> B) (idx : nat) (l : list A)
  : list B :=
  match l with
  | [] => []
  | x :: rest => f x idx :: mapWithIndex f (S idx) rest
  end.

(** Lines 147-164, for the non-empty [coords] and [modes].  The lengths are
    naturals, and [Math.floor] of their quotient is the quotient of
    naturals. *)
Definition project (coords : list LatLngPoint) (modes : list string)
  : list TransitStop :=
  let step := Nat.max 1 (List.length coords / List.length modes) in
  mapWithIndex
    (fun mode idx =>
       {| point := nth_error coords (Nat.min (idx * step) (List.length coords - 1));
          icon := iconFor mode |})
    0%nat modes.

(** Lines 140-143: the points the stops are spread over. *)
Definition stopCoords (r : Route.t) (line : list LatLngPoint)
  : list LatLngPoint :=
  match Route.pathCoordinates r with
  | Some (q :: qs) => q :: qs
  | _ => line
  end.

(** Lines 137-164. *)
Definition transitStops (p : Props) (line : list LatLngPoint)
  : list TransitStop :=
  match selectedRoute p with
  | None => []
  | Some r =>
      match Route.transportModes r with
      | None | Some [] => []
      | Some modes =>
          match stopCoords r line with
          | [] => []
          | q :: qs => project (q :: qs) modes
          end
      end
  end.

(** *** Map controller (lines 172-278) *)

(** Lines 172-178. *)
Definition center (p : Props) (s : State) : LatLngPoint :=
  match userLocation s with
  | Some u => u
  | None =>
      match destinationPoint p with
      | Some d => d
      | None => {| lat := 3139 # 1000; lng := 101686 # 1000 |}
      end
  end.

Definition centerArray (p : Props) (s : State) : Q * Q :=
  (lat (center p s), lng (center p s)).

Definition setRefs (m : option LMap) (g : option (list Layer)) (first : bool)
  (token : option Z) (s : State) : State :=
  {| userLocation := userLocation s;
     routeLine := routeLine s;
     mapRef := m;
     layerGroupRef := g;
     firstDrawRef := first;
     lastRecenterTokenRef := token;
     console := console s |}.

(** Lines 181-202: the map is created once the container exists, and only
    when there is none yet. *)
Definition initMap (containerReady : bool) (p : Props) (s : State) : State :=
  if containerReady then
    match mapRef s with
    | Some _ => s
    | None =>
        setRefs
          (Some {| initialCenter := centerArray p s; initialZoom := 14;
                   viewCalls := [] |})
          (Some []) (firstDrawRef s) (lastRecenterTokenRef s) s
    end
  else s.

(** Lines 203-207: the cleanup of that effect. *)
Definition removeMap (s : State) : State :=
  setRefs None None (firstDrawRef s) (lastRecenterTokenRef s) s.

(** Lines 212-214. *)
Definition rearmFirstDraw (s : State) : State :=
  setRefs (mapRef s) (layerGroupRef s) true (lastRecenterTokenRef s) s.

(** Lines 244-248: one marker per stop; reading [stop.point.lat] of a stop
    without a point throws. *)
Fixpoint stopMarkers (stops : list TransitStop) : option (list Layer) :=
  match stops with
  | [] => Some []
  | stop :: rest =>
      match point stop, stopMarkers rest with
      | Some q, Some ms => Some (Marker (lat q, lng q) (StopIcon (icon stop)) :: ms)
      | _, _ => None
      end
  end.

(** Lines 222-248: the layers drawn, in the order they are added. *)
Definition drawLayers (p : Props) (s : State) : option (list Layer) :=
  let line :=
    if Nat.ltb 1 (List.length (routeLine s))
    then [Polyline (map (fun q => (lat q, lng q)) (routeLine s))]
    else [] in
  let user :=
    match userLocation s with
    | Some u => [Marker (lat u, lng u) UserIcon]
    | None => []
    end in
  let dest :=
    match destinationPoint p with
    | Some d => [Marker (lat d, lng d) DestinationIcon]
    | None => []
    end in
  match stopMarkers (transitStops p (routeLine s)) with
  | Some stops => Some (line ++ user ++ dest ++ stops)
  | None => None
  end.

(** Lines 224-230: [polylineBounds], [null] unless a line was drawn. *)
Definition polylineBounds (s : State) : option LatLngBounds :=
  if Nat.ltb 1 (List.length (routeLine s))
  then Some (getBounds (map (fun q => (lat q, lng q)) (routeLine s)))
  else None.

(** Lines 250-252. *)
Definition forceRecenter (p : Props) (s : State) : bool :=
  match recenterToken p with
  | Some t =>
      match lastRecenterTokenRef s with
      | Some l => negb (Z.eqb t l)
      | None => true
      end
  | None => false
  end.

(** Line 253. *)
Definition shouldRecenter (p : Props) (s : State) : bool :=
  (firstDrawRef s || forceRecenter p s)%bool.

(** Lines 255-261: the viewport calls of one redraw. *)
Definition recenterCalls (p : Props) (s : State) : list ViewCall :=
  if shouldRecenter p s then
    match polylineBounds s with
    | Some b => [FitBounds b (32, 32)%Z]
    | None =>
        [SetView (centerArray p s) (if forceRecenter p s then 16 else 14)]
    end
  else [].

(** Lines 217-278: one run of the redraw effect.  [None] is the
    [TypeError] of a stop without a point. *)
Definition redraw (p : Props) (s : State) : option State :=
  match mapRef s, layerGroupRef s with
  | Some m, Some _ =>
      match drawLayers p s with
      | Some layers =>
          let force := forceRecenter p s in
          let m' := {| initialCenter := initialCenter m;
                       initialZoom := initialZoom m;
                       viewCalls := viewCalls m ++ recenterCalls p s |} in
          Some (setRefs (Some m') (Some layers) false
                  (if force then recenterToken p else lastRecenterTokenRef s) s)
      | None => None
      end
  | _, _ => Some s
  end.

End RealMap.

(** ** The vocabulary of the specification *)

Module Spec.


(** The cumulative duration of the segments up to and including index [k]. *)
Definition cumulativeDuration (segs : list Segment.t) (k : nat) : Q :=
  NavigationView.totalDur (firstn (S k) segs).

(** [k] is the first index whose cumulative duration reaches [target]. *)
Definition firstReaching (segs : list Segment.t) (target : Q) (k : nat) : Prop :=
  (k < List.length segs)%nat /\
  target <= cumulativeDuration segs k /\
  forall j, (j < k)%nat -> cumulativeDuration segs j < target.

Import NavigationView.

(** What a tick leaves behind, field by field. *)
Record tickEffect (route : Route.t) (start now : Q) (c c' : Component) : Prop := {
  te_progress : progress c' = fractionAt route (now - start);
  te_minutes :
    remainingMinutes c' = remainingMinutesAt route (fractionAt route (now - start));
  te_distance :
    remainingDistance c' = remainingDistanceAt route (fractionAt route (now - start));
  te_segment :
    currentSegmentIndex c' =
      match activeSegment (segments route) (fractionAt route (now - start)) with
      | Some i => i
      | None => currentSegmentIndex c
      end;
  te_values :
    progressValues (log c') =
      progressValues (log c) ++ [fractionAt route (now - start)];
  te_completions :
    completions c' =
      (completions c +
       if Js.ltb (fractionAt route (now - start)) 1 then 0 else 1)%nat;
  te_queue :
    frameQueue c' =
      frameQueue c ++
      (if Js.ltb (fractionAt route (now - start)) 1
       then [(nextHandle c, start)] else []);
  te_cleanup : cleanupHandle c' = cleanupHandle c
}.


(** A route without segments. *)
Definition zeroSegments (route : Route.t) : Prop :=
  Route.walkingSegments route = None \/ Route.walkingSegments route = Some [].

(** [needle] occurs in [s] when letter case is ignored; the needles of
    interest are in lower case. *)
Definition occursIgnoringCase (needle s : string) : Prop :=
  exists before mid after : string,
    s = (before ++ mid ++ after)%string /\ Js.toLowerCase mid = needle.

(** The viewport calls made so far on the map of a state. *)
Definition viewCallsOf (s : RealMap.State) : list RealMap.ViewCall :=
  match RealMap.mapRef s with
  | Some m => RealMap.viewCalls m
  | None => []
  end.

(** The controller is in its Mounted state. *)
Definition mounted (s : RealMap.State) : Prop :=
  RealMap.mapRef s <> None /\ RealMap.layerGroupRef s <> None.

(** A box contains a position. *)
Definition inBounds (b : RealMap.LatLngBounds) (q : Q * Q) : Prop :=
  match b with
  | RealMap.InvalidBounds => False
  | RealMap.Box south west north east =>
      south <= fst q <= north /\ west <= snd q <= east
  end.

(** The redraw effect run once for each of a list of props, in order. *)
Fixpoint redraws (ps : list RealMap.Props) (s : RealMap.State)
  : option RealMap.State :=
  match ps with
  | [] => Some s
  | p :: rest =>
      match RealMap.redraw p s with
      | Some s' => redraws rest s'
      | None => None
      end
  end.

(** How often a token differs from the one before it, [prev] coming before
    the first. *)
Fixpoint tokenChanges (prev : Z) (ts : list Z) : nat :=
  match ts with
  | [] => 0%nat
  | t :: rest => ((if Z.eqb t prev then 0 else 1) + tokenChanges t rest)%nat
  end.

(** NavigationView.tsx, lines 60 and 246: [(t) => t + 1] on a token the
    host can reach from its initial 0, that is [0 <= t <= 2^53].  The
    token is a double: below [2^53] the sum is exact, at [2^53] it rounds
    back to [2^53]. *)
Definition pressOnce (t : Z) : Z :=
  if Z.ltb t (2 ^ 53) then (t + 1)%Z else t.

(** The tokens the host passes down when the button is pressed [n] times,
    starting from the token [t]. *)
Fixpoint presses (t : Z) (n : nat) : list Z :=
  match n with
  | O => []
  | S n' => pressOnce t :: presses (pressOnce t) n'
  end.

(** The setter and callback calls of a log, without the frame requests. *)
Definition isSetterOrCallback (e : event) : bool :=
  match e with
  | RequestAnimationFrame _ | CancelAnimationFrame _ => false
  | _ => true
  end.

End Spec.

(** ** Concrete routes and states used as test points *)

Module Examples.

Definition pt (la lo : Q) : LatLngPoint := {| lat := la; lng := lo |}.

(** Ten minutes, no segments, with a given planned distance. *)
Definition plain (d : option Q) : Route.t :=
  Route.mk "r1" calm 10 d None None None None.

(** One minute, two segments of 20 s and 40 s worth of duration. *)
Definition twoLegs : Route.t :=
  Route.mk "r2" fast 1 (Some 1)
    (Some [ Segment.mk (4 # 10) (1 # 3) "A" "B" false;
            Segment.mk (6 # 10) (2 # 3) "B" "C" true ])
    None None None.

Definition threePoints : list LatLngPoint := [pt 1 1; pt (3 # 2) (3 # 2); pt 2 2].

(** A route that carries its path, and one that does not. *)
Definition withPath : Route.t :=
  Route.mk "r3" calm 10 (Some 1) None None (Some (pt 2 2)) (Some threePoints).

Definition withoutPath : Route.t :=
  Route.mk "r4" calm 10 (Some 1) None None (Some (pt 5 5)) None.

Definition props (r : Route.t) (token : option Z) : RealMap.Props :=
  {| RealMap.selectedRoute := Some r;
     RealMap.destinationCoords := None;
     RealMap.recenterToken := token |}.

(** The screen shows [withPath], the position of the user arrives, and
    the host then switches to [withoutPath]. *)
Definition afterWithPath : RealMap.State :=
  RealMap.geolocated (Some (pt 1 1))
    (fst (RealMap.resolveRoute (props withPath (Some 0%Z)) RealMap.initial)).

(** A mounted controller that has drawn once with token [0]. *)
Definition drawnOnce : RealMap.State :=
  RealMap.setRefs
    (Some {| RealMap.initialCenter := (1, 1); RealMap.initialZoom := 14;
             RealMap.viewCalls := [] |})
    (Some []) false (Some 0%Z) afterWithPath.

Definition tenPoints : list LatLngPoint :=
  map (fun k => pt (inject_Z (Z.of_nat k)) (inject_Z (Z.of_nat k))) (seq 0 10).

End Examples.

(** * Properties *)

Import NavigationView.

(** ** Numbers *)

Lemma ltb_lt (a b : Q) : Js.ltb a b = true <-> a < b.
Proof.
  unfold Js.ltb. rewrite negb_true_iff.
  split; intro H.
  - apply Qnot_le_lt. intro Hle. apply Qle_bool_iff in Hle. congruence.
  - destruct (Qle_bool b a) eqn:E; [|reflexivity].
    apply Qle_bool_iff in E. exfalso. exact (Qlt_not_le _ _ H E).
Qed.

Lemma ltb_ge (a b : Q) : Js.ltb a b = false <-> b <= a.
Proof.
  unfold Js.ltb. rewrite negb_false_iff. apply Qle_bool_iff.
Qed.

Lemma Qle_bool_false (a b : Q) : Qle_bool a b = false <-> b < a.
Proof.
  rewrite <- ltb_lt. unfold Js.ltb. now rewrite negb_true_iff.
Qed.

Lemma durationMs_pos (route : Route.t) :
  0 < Route.duration route -> 0 < durationMs route.
Proof. unfold durationMs. intro H. lra. Qed.

Lemma fractionAt_le_1 (route : Route.t) (e : Q) : fractionAt route e <= 1.
Proof. unfold fractionAt, Js.Math_min. apply Q.le_min_r. Qed.

Lemma fractionAt_nonneg (route : Route.t) (e : Q) :
  0 < Route.duration route -> 0 <= e -> 0 <= fractionAt route e.
Proof.
  intros Hd He. unfold fractionAt, Js.Math_min.
  apply Q.min_glb; [|lra].
  apply Qle_shift_div_l; [now apply durationMs_pos | lra].
Qed.

Lemma fractionAt_mono (route : Route.t) (e e' : Q) :
  0 < Route.duration route -> e <= e' -> fractionAt route e <= fractionAt route e'.
Proof.
  intros Hd Hle. unfold fractionAt, Js.Math_min.
  apply Q.min_le_compat_r.
  unfold Qdiv. apply Qmult_le_compat_r; [exact Hle|].
  apply Qlt_le_weak, Qinv_lt_0_compat. now apply durationMs_pos.
Qed.


(** ** One tick, one frame *)

Lemma progressValues_app (l1 l2 : list event) :
  progressValues (l1 ++ l2) = progressValues l1 ++ progressValues l2.
Proof.
  induction l1 as [|e l1 IH]; [reflexivity|].
  destruct e; simpl; rewrite IH; reflexivity.
Qed.

Lemma completions_emit (e : event) (c : Component) :
  completions (emit e c) = (completions c + if isOnComplete e then 1 else 0)%nat.
Proof.
  unfold completions, emit. simpl. rewrite filter_app, length_app. simpl.
  destruct (isOnComplete e); reflexivity.
Qed.

Lemma tick_effect (route : Route.t) (start now : Q) (c : Component) :
  Spec.tickEffect route start now c (tick route start now c).
Proof.
  constructor; unfold tick;
    destruct (activeSegment (segments route) (fractionAt route (now - start)))
      as [i|];
    destruct (Js.ltb (fractionAt route (now - start)) 1);
    simpl; unfold completions; simpl;
    repeat rewrite ?filter_app, ?length_app, ?progressValues_app; simpl;
    rewrite ?app_nil_r, ?Nat.add_0_r; reflexivity.
Qed.

(** A frame with exactly one tick queued runs that tick. *)
Lemma frame_live (route : Route.t) (now start : Q) (h : nat) (c : Component) :
  frameQueue c = [(h, start)] ->
  exists c0,
    frame route now c = tick route start now c0 /\
    frameQueue c0 = [] /\ log c0 = log c /\ nextHandle c0 = nextHandle c /\
    currentSegmentIndex c0 = currentSegmentIndex c /\
    cleanupHandle c0 = cleanupHandle c.
Proof.
  intro Hq. unfold frame. rewrite Hq. simpl.
  eexists. split; [reflexivity|]. simpl. repeat split; reflexivity.
Qed.

(** A frame with nothing queued does nothing. *)
Lemma frame_idle (route : Route.t) (now : Q) (c : Component) :
  frameQueue c = [] -> frame route now c = c.
Proof.
  intro Hq. unfold frame. rewrite Hq. simpl.
  destruct c; simpl in *; subst; reflexivity.
Qed.

Lemma frames_idle (route : Route.t) (ts : list Q) (c : Component) :
  frameQueue c = [] -> fold_left (step route) (map Frame ts) c = c.
Proof.
  intro Hq. induction ts as [|t ts IH]; [reflexivity|].
  simpl. rewrite frame_idle by exact Hq. exact IH.
Qed.

(** While the fraction stays below 1, each frame runs one tick and leaves
    the next one queued. *)
Lemma frames_below (route : Route.t) (start : Q) (ts : list Q) :
  (forall u, In u ts -> fractionAt route (u - start) < 1) ->
  forall (c : Component) (h : nat),
    frameQueue c = [(h, start)] ->
    let c' := fold_left (step route) (map Frame ts) c in
    (exists h', frameQueue c' = [(h', start)]) /\
    completions c' = completions c /\
    progressValues (log c') =
      progressValues (log c) ++ map (fun u => fractionAt route (u - start)) ts.
Proof.
  induction ts as [|t ts IH]; intros Hlt c h Hq; simpl.
  - split; [now exists h|]. split; [reflexivity|]. now rewrite app_nil_r.
  - destruct (frame_live route t start h c Hq) as (c0 & Hf & Hq0 & Hl0 & Hn0 & _).
    pose proof (tick_effect route start t c0) as E.
    assert (Hb : Js.ltb (fractionAt route (t - start)) 1 = true)
      by (apply ltb_lt, Hlt; now left).
    rewrite Hf.
    destruct (IH (fun u Hu => Hlt u (or_intror Hu)) (tick route start t c0)
                (nextHandle c0)) as (Hq' & Hc' & Hv').
    { rewrite (Spec.te_queue _ _ _ _ _ E), Hq0, Hb. reflexivity. }
    split; [exact Hq'|]. split.
    + rewrite Hc', (Spec.te_completions _ _ _ _ _ E), Hb.
      unfold completions. rewrite Hl0. lia.
    + rewrite Hv', (Spec.te_values _ _ _ _ _ E), Hl0, <- app_assoc. reflexivity.
Qed.

(** The frame at which the fraction reaches 1 runs the last tick. *)
Lemma frame_reaching (route : Route.t) (start t : Q) (h : nat) (c : Component) :
  frameQueue c = [(h, start)] ->
  1 <= fractionAt route (t - start) ->
  frameQueue (frame route t c) = [] /\
  completions (frame route t c) = S (completions c) /\
  progressValues (log (frame route t c)) =
    progressValues (log c) ++ [fractionAt route (t - start)].
Proof.
  intros Hq Hge.
  destruct (frame_live route t start h c Hq) as (c0 & Hf & Hq0 & Hl0 & _).
  pose proof (tick_effect route start t c0) as E.
  assert (Hb : Js.ltb (fractionAt route (t - start)) 1 = false)
    by now apply ltb_ge.
  rewrite Hf, (Spec.te_queue _ _ _ _ _ E), (Spec.te_completions _ _ _ _ _ E),
    (Spec.te_values _ _ _ _ _ E), Hb, Hq0, Hl0.
  unfold completions. rewrite Hl0.
  repeat split; try reflexivity. lia.
Qed.

Lemma mount_queue (route : Route.t) (start : Q) :
  frameQueue (mount route start) = [(1%nat, start)] /\
  completions (mount route start) = 0%nat /\
  progressValues (log (mount route start)) = [].
Proof. repeat split; reflexivity. Qed.




(** ** The claims about the progress simulator *)



(** On a route whose segment list is stable the effect runs once.  Let the
    frames [before] all yield a fraction below 1 and let the frame [t] be
    the first to reach 1.  Then [onComplete] has not been called after
    [before], it has been called exactly once after [t], no tick is queued
    any more, and whatever frames follow, the count of calls stays at
    one. *)
Lemma stable_run_completes_exactly_once
  (route : Route.t) (start t : Q) (before after : list Q) :
  0 < Route.duration route ->
  segmentsStable route = true ->
  (forall u, In u before -> fractionAt route (u - start) < 1) ->
  1 <= fractionAt route (t - start) ->
  completions (run route start (map Frame before)) = 0%nat /\
  completions (run route start (map Frame (before ++ [t]))) = 1%nat /\
  frameQueue (run route start (map Frame (before ++ [t]))) = [] /\
  completions (run route start (map Frame (before ++ t :: after))) = 1%nat /\
  log (run route start (map Frame (before ++ t :: after))) =
    log (run route start (map Frame (before ++ [t]))).
Proof.
  intros _ _ Hbelow Hreach.
  destruct (mount_queue route start) as (Hq & Hc & _).
  destruct (frames_below route start before Hbelow (mount route start) 1%nat Hq)
    as ((h & Hq') & Hc' & _).
  fold (run route start (map Frame before)) in Hq', Hc'.
  rewrite Hc in Hc'.
  destruct (frame_reaching route start t h _ Hq' Hreach) as (Hq'' & Hc'' & _).
  assert (Hone : run route start (map Frame (before ++ [t])) =
                 frame route t (run route start (map Frame before))).
  { unfold run. rewrite map_app, fold_left_app. reflexivity. }
  assert (Hall : run route start (map Frame (before ++ t :: after)) =
                 run route start (map Frame (before ++ [t]))).
  { unfold run at 1. rewrite map_app, fold_left_app. simpl.
    fold (run route start (map Frame before)).
    rewrite frames_idle by exact Hq''. now rewrite Hone. }
  rewrite Hall, Hone, Hq'', Hc'', Hc'. repeat split; reflexivity.
Qed.

Example stable_run_completes_once_on_two_legs :
  completions (run Examples.twoLegs 0 (map Frame ([16; 30000] ++ 60000 :: [60016; 60032])))
    = 1%nat.
Proof.
  refine (proj1 (proj2 (proj2 (proj2
    (stable_run_completes_exactly_once Examples.twoLegs 0 60000 [16; 30000]
       [60016; 60032] _ _ _ _))))).
  - reflexivity.
  - reflexivity.
  - intros u [<-|[<-|[]]]; reflexivity.
  - discriminate.
Qed.

(** C3 at a failing run.  The route lasts ten minutes and has no walking
    segments, so [segments] is a new array at every render.  The frame at
    150 s runs the tick, which sets the fraction to 1/4; the render that
    follows runs the effect again: its cleanup cancels handle 1, which has
    already fired, and a second tick is queued with 150 s as its start,
    beside the first one, still queued under handle 2.  At the frame at
    900 s the fraction of both is 1, and that one frame calls [onComplete]
    twice. *)
Theorem C3_route_without_segments_completes_twice :
  segmentsStable (Examples.plain None) = false /\
  progress (mount (Examples.plain None) 0) == 0 /\
  progress (run (Examples.plain None) 0 [Frame 150000]) == 1 # 4 /\
  frameQueue (rerunEffect 150000 (run (Examples.plain None) 0 [Frame 150000]))
    = [(2%nat, 0); (3%nat, 150000)] /\
  completions (rerunEffect 150000 (run (Examples.plain None) 0 [Frame 150000]))
    = 0%nat /\
  completions
    (frame (Examples.plain None) 900000
       (rerunEffect 150000 (run (Examples.plain None) 0 [Frame 150000])))
    = 2%nat.
Proof.
  repeat split; reflexivity.
Qed.

(** ** The active segment *)

Lemma fold_duration_acc (l : list Segment.t) (a : Q) :
  fold_left (fun s seg => s + Segment.duration seg) l a == a + totalDur l.
Proof.
  unfold totalDur. revert a.
  induction l as [|seg l IH]; intro a; simpl.
  - ring.
  - rewrite (IH (a + Segment.duration seg)), (IH (0 + Segment.duration seg)).
    ring.
Qed.

Lemma totalDur_cons (seg : Segment.t) (l : list Segment.t) :
  totalDur (seg :: l) == Segment.duration seg + totalDur l.
Proof.
  unfold totalDur at 1. simpl. rewrite fold_duration_acc. ring.
Qed.

Lemma cumulative_head (seg : Segment.t) (rest : list Segment.t) :
  Spec.cumulativeDuration (seg :: rest) 0 == Segment.duration seg.
Proof.
  unfold Spec.cumulativeDuration. simpl firstn.
  rewrite totalDur_cons. unfold totalDur. simpl. ring.
Qed.

Lemma cumulative_tail (seg : Segment.t) (rest : list Segment.t) (j : nat) :
  Spec.cumulativeDuration (seg :: rest) (S j) ==
  Segment.duration seg + Spec.cumulativeDuration rest j.
Proof.
  unfold Spec.cumulativeDuration.
  change (firstn (S (S j)) (seg :: rest)) with (seg :: firstn (S j) rest).
  apply totalDur_cons.
Qed.

Lemma cumulative_last (segs : list Segment.t) :
  segs <> [] ->
  Spec.cumulativeDuration segs (List.length segs - 1) == totalDur segs.
Proof.
  intro Hne. unfold Spec.cumulativeDuration.
  replace (S (List.length segs - 1)) with (List.length segs).
  - rewrite firstn_all. reflexivity.
  - destruct segs; [contradiction|simpl; lia].
Qed.

Lemma scanSegments_ge (segs : list Segment.t) :
  forall (i : nat) (cum target : Q) (r : nat),
    scanSegments segs i cum target = Some r -> (i <= r)%nat.
Proof.
  induction segs as [|seg rest IH]; intros i cum target r; simpl; [discriminate|].
  destruct (Qle_bool target (cum + Segment.duration seg)).
  - intro H. injection H. lia.
  - intro H. apply IH in H. lia.
Qed.

(** The loop started at index [i] with [cum] accumulated returns [i + j]
    exactly when [j] is the first offset at which the running sum reaches
    the target. *)
Lemma scanSegments_spec (segs : list Segment.t) :
  forall (i : nat) (cum target : Q) (j : nat),
    scanSegments segs i cum target = Some (i + j)%nat <->
    (j < List.length segs)%nat /\
    target <= cum + Spec.cumulativeDuration segs j /\
    (forall j', (j' < j)%nat -> cum + Spec.cumulativeDuration segs j' < target).
Proof.
  induction segs as [|seg rest IH]; intros i cum target j; simpl.
  - split; [discriminate|]. intros (H & _). lia.
  - destruct (Qle_bool target (cum + Segment.duration seg)) eqn:E.
    + apply Qle_bool_iff in E. split.
      * intro H. assert (j = 0%nat) by (injection H; lia). subst j.
        split; [lia|]. split; [rewrite cumulative_head; exact E|].
        intros j' Hj'. lia.
      * intros (_ & _ & Hall). destruct j as [|j]; [now rewrite Nat.add_0_r|].
        exfalso. specialize (Hall 0%nat (Nat.lt_0_succ j)).
        rewrite cumulative_head in Hall. lra.
    + apply Qle_bool_false in E.
      destruct j as [|j].
      * split.
        -- intro H. apply scanSegments_ge in H. lia.
        -- intros (_ & Hle & _). rewrite cumulative_head in Hle. lra.
      * replace (i + S j)%nat with (S i + j)%nat by lia.
        rewrite IH. split.
        -- intros (Hlen & Hle & Hall). split; [lia|]. split.
           ++ rewrite cumulative_tail. lra.
           ++ intros [|j'] Hj'.
              ** rewrite cumulative_head. exact E.
              ** rewrite cumulative_tail.
                 specialize (Hall j' (proj2 (Nat.succ_lt_mono j' j) Hj')). lra.
        -- intros (Hlen & Hle & Hall). split; [lia|]. split.
           ++ rewrite cumulative_tail in Hle. lra.
           ++ intros j' Hj'.
              specialize (Hall (S j') (proj1 (Nat.succ_lt_mono j' j) Hj')).
              rewrite cumulative_tail in Hall. lra.
Qed.

(** The loop makes its call as soon as some running sum reaches the
    target. *)
Lemma scanSegments_total (segs : list Segment.t) :
  forall (i : nat) (cum target : Q) (j : nat),
    (j < List.length segs)%nat ->
    target <= cum + Spec.cumulativeDuration segs j ->
    exists k, (k <= j)%nat /\ scanSegments segs i cum target = Some (i + k)%nat.
Proof.
  induction segs as [|seg rest IH]; intros i cum target j Hlen Hle; simpl in *.
  - lia.
  - destruct (Qle_bool target (cum + Segment.duration seg)) eqn:E.
    + exists 0%nat. split; [lia|]. now rewrite Nat.add_0_r.
    + apply Qle_bool_false in E. destruct j as [|j].
      * rewrite cumulative_head in Hle. lra.
      * destruct (IH (S i) (cum + Segment.duration seg) target j) as (k & Hk & Hs).
        -- lia.
        -- rewrite cumulative_tail in Hle. lra.
        -- exists (S k). split; [lia|]. rewrite Hs. f_equal. lia.
Qed.

Lemma activeSegment_spec (segs : list Segment.t) (fraction : Q) (k : nat) :
  activeSegment segs fraction = Some k <->
  Spec.firstReaching segs (totalDur segs * fraction) k.
Proof.
  unfold activeSegment, Spec.firstReaching.
  rewrite (scanSegments_spec segs 0%nat 0 (totalDur segs * fraction) k).
  split; intros (H1 & H2 & H3); (split; [exact H1|]); split.
  - lra.
  - intros j Hj. specialize (H3 j Hj). lra.
  - lra.
  - intros j Hj. specialize (H3 j Hj). lra.
Qed.

Lemma segments_nonempty (route : Route.t) : segments route <> [].
Proof.
  unfold segments. destruct (Route.walkingSegments route) as [[|s l]|]; discriminate.
Qed.

(** C7.  In every tick, with [target = sum(durations) * fraction], the index
    handed to [setCurrentSegmentIndex] is the first one whose cumulative
    duration is at least [target]; when [target] sits exactly on the
    cumulative duration of segment [j], the index chosen is not later than
    [j].  The route satisfies [0 < duration] and the sum of the segment
    durations is not negative. *)
Theorem C7_active_segment_is_first_reaching
  (route : Route.t) (start now : Q) (c : Component) :
  let segs := segments route in
  let fraction := fractionAt route (now - start) in
  let target := totalDur segs * fraction in
  0 < Route.duration route ->
  0 <= totalDur segs ->
  exists k,
    activeSegment segs fraction = Some k /\
    currentSegmentIndex (tick route start now c) = k /\
    Spec.firstReaching segs target k /\
    (forall i, activeSegment segs fraction = Some i <->
               Spec.firstReaching segs target i) /\
    (forall j, (j < List.length segs)%nat ->
               target == Spec.cumulativeDuration segs j -> (k <= j)%nat).
Proof.
  intros segs fraction target _ Htotal.
  assert (Hne : segs <> []) by apply segments_nonempty.
  assert (Hf : fraction <= 1) by apply fractionAt_le_1.
  destruct (scanSegments_total segs 0%nat 0 target (List.length segs - 1))
    as (k & _ & Hk).
  { destruct segs; [contradiction|simpl; lia]. }
  { rewrite cumulative_last by exact Hne. unfold target. nra. }
  exists k. simpl in Hk.
  assert (Hact : activeSegment segs fraction = Some k) by exact Hk.
  split; [exact Hact|]. split.
  - rewrite (Spec.te_segment _ _ _ _ _ (tick_effect route start now c)).
    fold segs fraction. now rewrite Hact.
  - split; [now apply activeSegment_spec|]. split.
    + intro i. apply activeSegment_spec.
    + intros j Hj Heq.
      apply activeSegment_spec in Hact. destruct Hact as (_ & _ & Hall).
      destruct (Nat.le_gt_cases k j) as [H|H]; [exact H|].
      specialize (Hall j H). fold target in Hall. lra.
Qed.

Lemma C7_witness :
  exists k,
    activeSegment (segments Examples.twoLegs)
      (fractionAt Examples.twoLegs (20000 - 0)) = Some k /\
    currentSegmentIndex (tick Examples.twoLegs 0 20000 (mount Examples.twoLegs 0)) = k.
Proof.
  destruct (C7_active_segment_is_first_reaching Examples.twoLegs 0 20000
              (mount Examples.twoLegs 0)) as (k & H1 & H2 & _).
  - reflexivity.
  - discriminate.
  - exists k. split; assumption.
Defined.

(** On the route of two legs, 20 s into the minute the target sits exactly
    on the end of the first leg: the first leg stays the active one. *)
Example boundary_selects_earlier_segment :
  totalDur (segments Examples.twoLegs) * fractionAt Examples.twoLegs 20000 ==
    Spec.cumulativeDuration (segments Examples.twoLegs) 0 /\
  activeSegment (segments Examples.twoLegs) (fractionAt Examples.twoLegs 20000)
    = Some 0%nat.
Proof. split; reflexivity. Qed.

(** ** Remaining time and distance *)

(** [Math.round] yields the nearest integer, the upper one on a tie. *)
Lemma Math_round_nearest (x : Q) :
  exists n : Z,
    Js.Math_round x = inject_Z n /\
    inject_Z n - (1 # 2) <= x < inject_Z n + (1 # 2).
Proof.
  exists (Qfloor (x + (1 # 2))). split; [reflexivity|].
  pose proof (Qfloor_le (x + (1 # 2))) as Hlo.
  pose proof (Qlt_floor (x + (1 # 2))) as Hhi.
  rewrite inject_Z_plus in Hhi. change (inject_Z 1) with 1 in Hhi.
  split; lra.
Qed.

(** On a non-negative number below [1e21], [toFixed(2)] yields the nearest
    multiple of a hundredth, the upper one on a tie. *)
Lemma toFixed2_nearest (x : Q) :
  0 <= x -> x < inject_Z (10 ^ 21) ->
  exists n : Z,
    Js.toFixed2 x = inject_Z n / 100 /\
    inject_Z n - (1 # 2) <= x * 100 < inject_Z n + (1 # 2).
Proof.
  intros Hx Hbig. pose proof (Qabs_pos x Hx) as Habs.
  exists (Qfloor (Qabs x * 100 + (1 # 2))). split.
  - unfold Js.toFixed2.
    assert (H1 : Qle_bool (inject_Z (10 ^ 21)) (Qabs x) = false)
      by (apply Qle_bool_false; lra).
    assert (H2 : Js.ltb x 0 = false) by now apply ltb_ge.
    cbv zeta. rewrite H1, H2. reflexivity.
  - pose proof (Qfloor_le (Qabs x * 100 + (1 # 2))) as Hlo.
    pose proof (Qlt_floor (Qabs x * 100 + (1 # 2))) as Hhi.
    rewrite inject_Z_plus in Hhi. change (inject_Z 1) with 1 in Hhi.
    split; lra.
Qed.

Lemma segments_of_zero (route : Route.t) :
  Spec.zeroSegments route ->
  segments route =
    [ Segment.mk (distanceOrDefault route) (Route.duration route)
        "Start" "Destination" true ].
Proof.
  unfold segments. intros [H|H]; rewrite H; reflexivity.
Qed.

Lemma distanceOrDefault_given (route : Route.t) (d : Q) :
  Route.distance route = Some d -> ~ d == 0 -> distanceOrDefault route = d.
Proof.
  intros H Hnz. unfold distanceOrDefault, Js.orNumber. rewrite H.
  destruct (Qeq_bool d 0) eqn:E; [|reflexivity].
  apply Qeq_bool_eq in E. contradiction.
Qed.

Lemma distanceOrDefault_default (route : Route.t) :
  Route.distance route = None \/
  (exists d, Route.distance route = Some d /\ d == 0) ->
  distanceOrDefault route = 8 # 10.
Proof.
  unfold distanceOrDefault, Js.orNumber. intros [H|(d & H & Hz)]; rewrite H.
  - reflexivity.
  - now rewrite (Qeq_eq_bool _ _ Hz).
Qed.

(** C8, as the specification words it, fails on a route without segments
    whose planned distance is 0: half way through, the tick stores 0.40 km,
    not [max(round2(0 * (1 - 1/2)), 0) = 0], and the synthetic segment is
    0.8 km long, not 0. *)
Lemma C8_counterexample :
  Spec.zeroSegments (Examples.plain (Some 0)) /\
  Route.distance (Examples.plain (Some 0)) = Some 0 /\
  fractionAt (Examples.plain (Some 0)) (300000 - 0) == 1 # 2 /\
  remainingDistance
    (tick (Examples.plain (Some 0)) 0 300000 (mount (Examples.plain (Some 0)) 0))
    == 4 # 10 /\
  ~ remainingDistance
      (tick (Examples.plain (Some 0)) 0 300000 (mount (Examples.plain (Some 0)) 0))
    == Js.Math_max (Js.toFixed2 (0 * (1 - (1 # 2)))) 0 /\
  map Segment.distance (segments (Examples.plain (Some 0))) = [8 # 10].
Proof.
  split; [now left|]. split; [reflexivity|].
  split; [reflexivity|]. split; [reflexivity|].
  split; [|reflexivity].
  vm_compute. discriminate.
Qed.

(** C8, amended.  A route without segments is simulated over one synthetic
    last-mile segment that spans the route's duration (positive, by the
    Route invariant) and the distance [d],
    where [d] is the planned distance, or 0.8 km when that is absent or 0.
    For every route and every tick, remaining minutes are
    [max(round(duration * (1 - fraction)), 0)] and the remaining distance is
    [max(round2(d * (1 - fraction)), 0)].  With 0.8 km and 10 min, at
    fraction 0.5, that is 0.40 km and 5 min. *)
Theorem C8_remaining_over_synthetic_segment (route : Route.t) :
  0 < Route.duration route ->
  (Spec.zeroSegments route ->
   segments route =
     [ Segment.mk (distanceOrDefault route) (Route.duration route)
         "Start" "Destination" true ]) /\
  (forall d, Route.distance route = Some d -> ~ d == 0 ->
             distanceOrDefault route = d) /\
  (Route.distance route = None \/
   (exists d, Route.distance route = Some d /\ d == 0) ->
   distanceOrDefault route = 8 # 10) /\
  (forall start now c,
      let fraction := fractionAt route (now - start) in
      remainingMinutes (tick route start now c) =
        Js.Math_max (Js.Math_round (Route.duration route * (1 - fraction))) 0 /\
      remainingDistance (tick route start now c) =
        Js.Math_max (Js.toFixed2 (distanceOrDefault route * (1 - fraction))) 0) /\
  (Route.distance route = Some (8 # 10) -> Route.duration route = 10 ->
   remainingDistanceAt route (1 # 2) == 40 # 100 /\
   remainingMinutesAt route (1 # 2) == 5).
Proof.
  intros _.
  split; [apply segments_of_zero|].
  split; [apply distanceOrDefault_given|].
  split; [apply distanceOrDefault_default|].
  split.
  - intros start now c fraction.
    pose proof (tick_effect route start now c) as E.
    split; [exact (Spec.te_minutes _ _ _ _ _ E) | exact (Spec.te_distance _ _ _ _ _ E)].
  - intros Hdist Hdur.
    unfold remainingDistanceAt, remainingMinutesAt, distanceOrDefault.
    rewrite Hdist, Hdur. split; reflexivity.
Qed.

Lemma C8_witness :
  segments (Examples.plain (Some (8 # 10))) =
    [ Segment.mk (8 # 10) 10 "Start" "Destination" true ] /\
  remainingDistanceAt (Examples.plain (Some (8 # 10))) (1 # 2) == 40 # 100 /\
  remainingMinutesAt (Examples.plain (Some (8 # 10))) (1 # 2) == 5.
Proof.
  destruct (C8_remaining_over_synthetic_segment (Examples.plain (Some (8 # 10))))
    as (Hs & _ & _ & _ & Hx); [reflexivity|].
  split.
  - apply Hs. left. reflexivity.
  - apply Hx; reflexivity.
Defined.

(** C10.  On a route with [0 < duration] whose planned distance is absent
    or 0, 0.8 km stands in for it
    in the initial remaining distance, in every tick's remaining distance
    and in the synthetic segment; at fraction 0 the remaining distance is
    therefore 0.8 km and not 0. *)
Theorem C10_default_distance (route : Route.t) :
  0 < Route.duration route ->
  Route.distance route = None \/
  (exists d, Route.distance route = Some d /\ d == 0) ->
  (forall now, remainingDistance (mount route now) = 8 # 10) /\
  (forall start now c,
      remainingDistance (tick route start now c) =
        Js.Math_max
          (Js.toFixed2 ((8 # 10) * (1 - fractionAt route (now - start)))) 0) /\
  (Spec.zeroSegments route ->
   map Segment.distance (segments route) = [8 # 10]) /\
  remainingDistanceAt route 0 == 8 # 10 /\
  ~ remainingDistanceAt route 0 == 0.
Proof.
  intros _ H. pose proof (distanceOrDefault_default route H) as Hd.
  split; [|split; [|split; [|split]]].
  - intro now. simpl. exact Hd.
  - intros start now c.
    rewrite (Spec.te_distance _ _ _ _ _ (tick_effect route start now c)).
    unfold remainingDistanceAt. now rewrite Hd.
  - intro Hz. rewrite (segments_of_zero route Hz). simpl. now rewrite Hd.
  - unfold remainingDistanceAt. rewrite Hd. reflexivity.
  - unfold remainingDistanceAt. rewrite Hd. vm_compute. discriminate.
Qed.

Lemma C10_witness :
  remainingDistance (mount (Examples.plain (Some 0)) 0) = 8 # 10 /\
  remainingDistanceAt (Examples.plain None) 0 == 8 # 10.
Proof.
  split.
  - refine (proj1 (C10_default_distance (Examples.plain (Some 0)) _ _) 0).
    + reflexivity.
    + right. exists 0. split; reflexivity.
  - refine (proj1 (proj2 (proj2 (proj2
             (C10_default_distance (Examples.plain None) _ _))))).
    + reflexivity.
    + left. reflexivity.
Defined.

(** ** Teardown *)

(** A teardown before the first frame withdraws the only queued tick:
    nothing runs afterwards. *)
Lemma unmount_before_first_frame (route : Route.t) (start : Q) (ts : list Q) :
  frameQueue (run route start [Unmount]) = [] /\
  log (run route start (Unmount :: map Frame ts)) =
    [RequestAnimationFrame 1; CancelAnimationFrame 1].
Proof.
  split; [reflexivity|].
  unfold run. simpl fold_left at 1.
  change (fold_left (step route) (Unmount :: map Frame ts) (mount route start))
    with (fold_left (step route) (map Frame ts) (unmount (mount route start))).
  rewrite frames_idle by reflexivity. reflexivity.
Qed.

(** A teardown after a tick has run cancels a handle that is no longer
    queued: the tick that was queued by the tick itself stays, and the
    frame at which the fraction reaches 1 calls [onComplete]. *)
Lemma unmount_after_first_tick (route : Route.t) (start t1 t2 : Q) :
  fractionAt route (t1 - start) < 1 ->
  1 <= fractionAt route (t2 - start) ->
  frameQueue (run route start [Frame t1; Unmount]) = [(2%nat, start)] /\
  completions (run route start [Frame t1; Unmount]) = 0%nat /\
  completions (run route start [Frame t1; Unmount; Frame t2]) = 1%nat.
Proof.
  intros Hlt Hge.
  destruct (mount_queue route start) as (Hq & Hc & _).
  destruct (frame_live route t1 start 1%nat (mount route start) Hq)
    as (c0 & Hf & Hq0 & Hl0 & Hn0 & _ & Hk0).
  pose proof (tick_effect route start t1 c0) as E.
  assert (Hb : Js.ltb (fractionAt route (t1 - start)) 1 = true)
    by now apply ltb_lt.
  assert (Hq1 : frameQueue (frame route t1 (mount route start)) = [(2%nat, start)]).
  { rewrite Hf, (Spec.te_queue _ _ _ _ _ E), Hq0, Hb, Hn0. reflexivity. }
  assert (Hc1 : completions (frame route t1 (mount route start)) = 0%nat).
  { rewrite Hf, (Spec.te_completions _ _ _ _ _ E), Hb.
    unfold completions. rewrite Hl0. reflexivity. }
  assert (Hk1 : cleanupHandle (frame route t1 (mount route start)) = Some 1%nat).
  { rewrite Hf, (Spec.te_cleanup _ _ _ _ _ E), Hk0. reflexivity. }
  assert (Hq2 : frameQueue (run route start [Frame t1; Unmount]) = [(2%nat, start)]).
  { unfold run. simpl. unfold unmount. rewrite Hk1. simpl. rewrite Hq1.
    reflexivity. }
  assert (Hc2 : completions (run route start [Frame t1; Unmount]) = 0%nat).
  { unfold run. simpl. unfold unmount. rewrite Hk1.
    unfold cancelAnimationFrame, completions. simpl.
    rewrite filter_app, length_app. simpl.
    fold (completions (frame route t1 (mount route start))). now rewrite Hc1. }
  split; [exact Hq2|]. split; [exact Hc2|].
  destruct (frame_reaching route start t2 2%nat _ Hq2 Hge) as (_ & Hc3 & _).
  change (run route start [Frame t1; Unmount; Frame t2])
    with (frame route t2 (run route start [Frame t1; Unmount])).
  now rewrite Hc3, Hc2.
Qed.

(** C5 at a failing run.  The route lasts one minute; a frame arrives after
    16 ms, the screen is left, and frames keep arriving.  The cleanup
    cancels handle 1, which has already run; the tick queued under handle 2
    stays queued, and at 60 s it updates the state cells and calls
    [onComplete]. *)
Theorem C5_teardown_after_first_tick_leaves_tick_queued :
  cleanupHandle (run Examples.twoLegs 0 [Frame 16]) = Some 1%nat /\
  frameQueue (run Examples.twoLegs 0 [Frame 16]) = [(2%nat, 0)] /\
  frameQueue (run Examples.twoLegs 0 [Frame 16; Unmount]) = [(2%nat, 0)] /\
  completions (run Examples.twoLegs 0 [Frame 16; Unmount]) = 0%nat /\
  completions (run Examples.twoLegs 0 [Frame 16; Unmount; Frame 60000]) = 1%nat /\
  (exists before after,
      log (run Examples.twoLegs 0 [Frame 16; Unmount; Frame 60000]) =
        before ++ CancelAnimationFrame 1 :: after /\
      In OnComplete after /\
      In (SetCurrentSegmentIndex 1) after /\
      progressValues after <> []).
Proof.
  repeat (split; [reflexivity|]).
  eexists. eexists. split.
  - vm_compute. 
    match goal with
    | |- ?a :: ?b :: ?c :: ?d :: ?e :: ?f :: ?rest = _ =>
        change (a :: b :: c :: d :: e :: f :: rest)
          with ([a; b; c; d; e; f] ++ rest)
    end.
    reflexivity.
  - split; [|split].
    + simpl. tauto.
    + simpl. tauto.
    + discriminate.
Qed.

(** ** Strings *)

Import RealMap.

Lemma startsWith_spec (needle s : string) :
  Js.startsWith needle s = true <-> exists rest, s = (needle ++ rest)%string.
Proof.
  revert s. induction needle as [|a needle IH]; intro s; simpl.
  - split; [intros _; now exists s | reflexivity].
  - destruct s as [|b s].
    + split; [discriminate | intros (rest & H); discriminate].
    + rewrite andb_true_iff, Ascii.eqb_eq, IH. split.
      * intros (-> & rest & ->). now exists rest.
      * intros (rest & H). injection H as -> ->. split; [reflexivity|now exists rest].
Qed.

Lemma includes_spec (s needle : string) :
  Js.includes s needle = true <->
  exists before after, s = (before ++ needle ++ after)%string.
Proof.
  induction s as [|c s IH]; simpl; rewrite orb_true_iff, startsWith_spec.
  - split.
    + intros [(rest & H)|H]; [|discriminate]. now exists EmptyString, rest.
    + intros (before & after & H). left.
      destruct before; [now exists after|discriminate].
  - rewrite IH. split.
    + intros [(rest & H)|(before & after & ->)].
      * now exists EmptyString, rest.
      * now exists (String c before), after.
    + intros (before & after & H). destruct before as [|b before].
      * left. now exists after.
      * right. injection H as -> ->. now exists before, after.
Qed.

Lemma toLowerCase_app (a b : string) :
  Js.toLowerCase (a ++ b) = (Js.toLowerCase a ++ Js.toLowerCase b)%string.
Proof.
  induction a as [|c a IH]; simpl; [reflexivity|now rewrite IH].
Qed.

Lemma toLowerCase_split (a b : string) :
  forall s, Js.toLowerCase s = (a ++ b)%string ->
  exists a' b', s = (a' ++ b')%string /\
                Js.toLowerCase a' = a /\ Js.toLowerCase b' = b.
Proof.
  induction a as [|c a IH]; intros s H; simpl in H.
  - now exists EmptyString, s.
  - destruct s as [|d s]; [discriminate|].
    simpl in H. injection H as Hc Hs.
    destruct (IH s Hs) as (a' & b' & -> & Ha & Hb).
    exists (String d a'), b'. simpl. now rewrite Hc, Ha.
Qed.

Lemma includes_ignoring_case (needle s : string) :
  Js.includes (Js.toLowerCase s) needle = true <->
  Spec.occursIgnoringCase needle s.
Proof.
  rewrite includes_spec. unfold Spec.occursIgnoringCase. split.
  - intros (before & after & H).
    destruct (toLowerCase_split _ _ _ H) as (b' & rest & -> & _ & Hrest).
    destruct (toLowerCase_split _ _ _ Hrest) as (m' & a' & -> & Hm & _).
    now exists b', m', a'.
  - intros (before & mid & after & -> & <-).
    exists (Js.toLowerCase before), (Js.toLowerCase after).
    now rewrite !toLowerCase_app.
Qed.

(** The category of a label: the first rule that matches wins. *)
Lemma iconFor_spec (mode : string) :
  (iconFor mode = bus <-> Spec.occursIgnoringCase "bus" mode) /\
  (iconFor mode = rail <->
     ~ Spec.occursIgnoringCase "bus" mode /\
     (Spec.occursIgnoringCase "metro" mode \/
      Spec.occursIgnoringCase "mrt" mode \/
      Spec.occursIgnoringCase "rail" mode)) /\
  (iconFor mode = walk <->
     ~ Spec.occursIgnoringCase "bus" mode /\
     ~ Spec.occursIgnoringCase "metro" mode /\
     ~ Spec.occursIgnoringCase "mrt" mode /\
     ~ Spec.occursIgnoringCase "rail" mode).
Proof.
  rewrite <- !includes_ignoring_case. unfold iconFor.
  destruct (Js.includes (Js.toLowerCase mode) "bus");
    destruct (Js.includes (Js.toLowerCase mode) "metro");
    destruct (Js.includes (Js.toLowerCase mode) "mrt");
    destruct (Js.includes (Js.toLowerCase mode) "rail"); simpl;
    intuition (try discriminate; try congruence).
Qed.

(** ** The transit-stop projector *)

(** [Math.floor(n / m)] on two lengths is the division of naturals that
    [project] uses for its step. *)
Lemma floor_of_lengths (n m : nat) :
  Js.Math_floor (inject_Z (Z.of_nat n) / inject_Z (Z.of_nat m)) =
  inject_Z (Z.of_nat (n / m)).
Proof.
  unfold Js.Math_floor. now rewrite <- Zdiv_Qdiv, Nat2Z.inj_div.
Qed.

Lemma mapWithIndex_length {A B : Type} (f : A -> nat -> B) (l : list A) :
  forall i0, List.length (mapWithIndex f i0 l) = List.length l.
Proof.
  induction l as [|x l IH]; intro i0; simpl; [reflexivity|now rewrite IH].
Qed.

Lemma mapWithIndex_nth {A B : Type} (f : A -> nat -> B) (l : list A) :
  forall i0 i x,
    nth_error l i = Some x ->
    nth_error (mapWithIndex f i0 l) i = Some (f x (i0 + i)%nat).
Proof.
  induction l as [|y l IH]; intros i0 [|i] x H; simpl in *; try discriminate.
  - injection H as ->. now rewrite Nat.add_0_r.
  - rewrite (IH (S i0) i x H). f_equal. f_equal. lia.
Qed.

Lemma anchor_in_range {A : Type} (coords : list A) (k : nat) :
  coords <> [] ->
  exists q, nth_error coords (Nat.min k (List.length coords - 1)) = Some q.
Proof.
  intro Hne.
  destruct (nth_error coords (Nat.min k (List.length coords - 1))) as [q|] eqn:E.
  - now exists q.
  - apply nth_error_None in E. destruct coords; [contradiction|simpl in E; lia].
Qed.

Lemma stopMarkers_total (stops : list TransitStop) :
  (forall stop, In stop stops -> point stop <> None) ->
  stopMarkers stops <> None.
Proof.
  induction stops as [|stop rest IH]; intro H; simpl; [discriminate|].
  destruct (point stop) eqn:E.
  - destruct (stopMarkers rest) eqn:E'; [discriminate|].
    exfalso. apply IH; [|reflexivity]. intros s Hs. apply H. now right.
  - exfalso. apply (H stop); [now left|exact E].
Qed.

Lemma project_points (coords : list LatLngPoint) (modes : list string) :
  coords <> [] ->
  forall stop, In stop (project coords modes) -> point stop <> None.
Proof.
  intros Hne stop Hin. unfold project in Hin.
  apply In_nth_error in Hin. destruct Hin as [i Hi].
  assert (Hlen : (i < List.length modes)%nat).
  { rewrite <- (mapWithIndex_length
                  (fun mode idx =>
                     {| point := nth_error coords
                                   (Nat.min (idx * Nat.max 1 (List.length coords / List.length modes))
                                            (List.length coords - 1));
                        icon := iconFor mode |}) modes 0).
    apply nth_error_Some. congruence. }
  destruct (nth_error modes i) as [mode|] eqn:Hm;
    [|apply nth_error_None in Hm; lia].
  rewrite (mapWithIndex_nth _ _ _ _ _ Hm) in Hi. injection Hi as <-.
  cbn [point].
  match goal with
  | |- nth_error coords (Nat.min ?k _) <> None =>
      destruct (anchor_in_range coords k Hne) as [q Hq]
  end.
  rewrite Hq. discriminate.
Qed.

Lemma transitStops_points (p : Props) (line : list LatLngPoint) :
  forall stop, In stop (transitStops p line) -> point stop <> None.
Proof.
  unfold transitStops.
  destruct (selectedRoute p) as [r|]; [|intros ? []].
  destruct (Route.transportModes r) as [[|m ms]|]; try (intros ? []).
  destruct (stopCoords r line) as [|q qs]; [intros ? []|].
  now apply project_points.
Qed.

(** C9.  For a non-empty path and a non-empty list of labels the projector
    yields one stop per label; the stop of label [i] sits at
    [path[min(i * step, pathLength - 1)]] with
    [step = max(1, floor(pathLength / labelCount))], a point that exists;
    its category is [bus] when the label contains "bus", else [rail] when it
    contains "metro", "mrt" or "rail", else [walk], letter case ignored.  A
    path of 10 points with the labels "Bus 12" and "MRT Circle" gives the
    points 0 and 5, categories [bus] and [rail]. *)
Theorem C9_one_stop_per_label
  (p : Props) (r : Route.t) (line : list LatLngPoint) (modes : list string) :
  selectedRoute p = Some r ->
  Route.transportModes r = Some modes ->
  modes <> [] ->
  stopCoords r line <> [] ->
  let coords := stopCoords r line in
  let step := Nat.max 1 (List.length coords / List.length modes) in
  let stops := transitStops p line in
  List.length stops = List.length modes /\
  (forall i mode,
      nth_error modes i = Some mode ->
      exists q,
        nth_error coords (Nat.min (i * step) (List.length coords - 1)) = Some q /\
        nth_error stops i = Some {| point := Some q; icon := iconFor mode |}) /\
  (forall mode,
      (iconFor mode = bus <-> Spec.occursIgnoringCase "bus" mode) /\
      (iconFor mode = rail <->
         ~ Spec.occursIgnoringCase "bus" mode /\
         (Spec.occursIgnoringCase "metro" mode \/
          Spec.occursIgnoringCase "mrt" mode \/
          Spec.occursIgnoringCase "rail" mode)) /\
      (iconFor mode = walk <->
         ~ Spec.occursIgnoringCase "bus" mode /\
         ~ Spec.occursIgnoringCase "metro" mode /\
         ~ Spec.occursIgnoringCase "mrt" mode /\
         ~ Spec.occursIgnoringCase "rail" mode)) /\
  (List.length coords = 10%nat ->
   modes = ["Bus 12"; "MRT Circle"]%string ->
   stops = [ {| point := nth_error coords 0; icon := bus |};
             {| point := nth_error coords 5; icon := rail |} ]).
Proof.
  intros Hr Hm Hmodes Hcoords coords step stops.
  assert (Hstops : stops = project coords modes).
  { unfold stops, transitStops. rewrite Hr, Hm. fold coords.
    destruct modes as [|m ms]; [contradiction|].
    destruct coords as [|q qs] eqn:E; [contradiction|reflexivity]. }
  split; [|split; [|split]].
  - rewrite Hstops. apply mapWithIndex_length.
  - intros i mode Hi.
    destruct (anchor_in_range coords (i * step) Hcoords) as [q Hq].
    exists q. split; [exact Hq|].
    rewrite Hstops. unfold project.
    rewrite (mapWithIndex_nth _ _ _ _ _ Hi). fold step.
    rewrite Nat.add_0_l, Hq. reflexivity.
  - apply iconFor_spec.
  - intros Hlen ->. rewrite Hstops. unfold project. rewrite Hlen. reflexivity.
Qed.

Lemma C9_witness :
  transitStops
    (Examples.props
       (Route.mk "r5" calm 10 (Some 1) None (Some ["Bus 12"; "MRT Circle"]%string)
          None (Some Examples.tenPoints)) None) []
  = [ {| point := nth_error Examples.tenPoints 0; icon := bus |};
      {| point := nth_error Examples.tenPoints 5; icon := rail |} ].
Proof.
  refine (proj2 (proj2 (proj2
    (C9_one_stop_per_label
       (Examples.props
          (Route.mk "r5" calm 10 (Some 1) None
             (Some ["Bus 12"; "MRT Circle"]%string) None
             (Some Examples.tenPoints)) None)
       (Route.mk "r5" calm 10 (Some 1) None
          (Some ["Bus 12"; "MRT Circle"]%string) None (Some Examples.tenPoints))
       [] ["Bus 12"; "MRT Circle"]%string _ _ _ _))) _ _);
    try reflexivity; discriminate.
Defined.

(** ** The geometry resolver *)

(** A lookup that was issued and failed stores nothing: the sequence of
    points is the one stored before the lookup.  A rejection is logged to
    the console, data without coordinates are dropped without a log entry,
    and the position of the user is kept. *)
Lemma failed_lookup_stores_nothing
  (p : Props) (s : State) (o : FetchOutcome) (req : Request) :
  precomputedPath p = None ->
  snd (resolveRoute p s) = Some req ->
  lookupFailed o = true ->
  routeLine (resolveWith p o s) = routeLine s /\
  (routeLine s = [] -> routeLine (resolveWith p o s) = []) /\
  userLocation (resolveWith p o s) = userLocation s /\
  console (resolveWith p o s) =
    console s ++
    match o with
    | Rejected _ => ["Routing error:"%string]
    | Json _ => []
    end.
Proof.
  intros Hpath Hreq Hfail.
  unfold resolveWith, resolveRoute in *. rewrite Hpath in *.
  destruct (userLocation s) as [u|] eqn:Hu;
    destruct (destinationPoint p) as [d|]; try discriminate.
  destruct o as [name|[coordinates|]]; simpl in *.
  - destruct (String.eqb name "AbortError"); [discriminate|]. simpl.
    repeat split; auto.
  - discriminate.
  - rewrite app_nil_r. repeat split; auto.
Qed.

(** C4 at a failing run.  The screen showed a route that carries its path
    of three points and the position of the user arrived; the host then
    switched to a route without a path, with a destination.  The resolver
    issues the request.  When it is rejected (a network failure, or the
    handler throwing on a body of [null]) the console gets an entry and
    the three points of the earlier route stay as the line; when the
    answer has no coordinates the three points stay and the console gets
    nothing.  The branch beside it, for a missing input, does store the
    empty sequence over the same three points. *)
Theorem C4_failed_lookup_keeps_the_stale_line :
  routeLine Examples.afterWithPath = Examples.threePoints /\
  precomputedPath (Examples.props Examples.withoutPath (Some 0%Z)) = None /\
  snd (resolveRoute (Examples.props Examples.withoutPath (Some 0%Z))
         Examples.afterWithPath)
    = Some {| origin := Examples.pt 1 1; target := Examples.pt 5 5 |} /\
  routeLine (resolveWith (Examples.props Examples.withoutPath (Some 0%Z))
               (Rejected "TypeError") Examples.afterWithPath)
    = Examples.threePoints /\
  console (resolveWith (Examples.props Examples.withoutPath (Some 0%Z))
             (Rejected "TypeError") Examples.afterWithPath)
    = ["Routing error:"%string] /\
  routeLine (resolveWith (Examples.props Examples.withoutPath (Some 0%Z))
               (Json None) Examples.afterWithPath)
    = Examples.threePoints /\
  console (resolveWith (Examples.props Examples.withoutPath (Some 0%Z))
             (Json None) Examples.afterWithPath)
    = [] /\
  routeLine (resolveWith (Examples.props Examples.withoutPath (Some 0%Z))
               (Rejected "TypeError") Examples.afterWithPath)
    <> [] /\
  routeLine (fst (resolveRoute (Examples.props (Examples.plain None) (Some 0%Z))
                    Examples.afterWithPath))
    = [].
Proof.
  repeat (split; [reflexivity|]). split; [discriminate|reflexivity].
Qed.

(** ** The map controller *)

Lemma extend_spec (latlngs : list (Q * Q)) :
  forall south west north east,
  exists south' west' north' east',
    extend south west north east latlngs = Box south' west' north' east' /\
    south' <= south /\ west' <= west /\ north <= north' /\ east <= east' /\
    forall q, In q latlngs ->
              south' <= fst q <= north' /\ west' <= snd q <= east'.
Proof.
  induction latlngs as [|[la lo] rest IH]; intros south west north east; simpl.
  - exists south, west, north, east. repeat split; try apply Qle_refl.
    all: contradiction.
  - destruct (IH (Qmin south la) (Qmin west lo) (Qmax north la) (Qmax east lo))
      as (s' & w' & n' & e' & Heq & Hs & Hw & Hn & He & Hall).
    pose proof (Q.le_min_l south la). pose proof (Q.le_min_r south la).
    pose proof (Q.le_min_l west lo). pose proof (Q.le_min_r west lo).
    pose proof (Q.le_max_l north la). pose proof (Q.le_max_r north la).
    pose proof (Q.le_max_l east lo). pose proof (Q.le_max_r east lo).
    exists s', w', n', e'. split; [exact Heq|].
    split; [lra|]. split; [lra|]. split; [lra|]. split; [lra|].
    intros q [<-|Hin]; [simpl; lra | apply (Hall q Hin)].
Qed.

(** The bounds of a line that has a point are a box around all of them. *)
Lemma getBounds_spec (latlngs : list (Q * Q)) :
  latlngs <> [] ->
  exists south west north east,
    getBounds latlngs = Box south west north east /\
    forall q, In q latlngs -> Spec.inBounds (getBounds latlngs) q.
Proof.
  destruct latlngs as [|[la lo] rest]; [contradiction|]. intros _. simpl.
  destruct (extend_spec rest la lo la lo)
    as (s' & w' & n' & e' & Heq & Hs & Hw & Hn & He & Hall).
  exists s', w', n', e'. split; [exact Heq|].
  rewrite Heq. simpl. intros q [<-|Hin]; simpl.
  - repeat split; assumption.
  - apply (Hall q Hin).
Qed.

Lemma drawLayers_total (p : Props) (s : State) : drawLayers p s <> None.
Proof.
  unfold drawLayers.
  pose proof (stopMarkers_total _ (transitStops_points p (routeLine s))) as H.
  destruct (stopMarkers (transitStops p (routeLine s))); [discriminate|contradiction].
Qed.

(** A redraw of a mounted controller goes through; it appends the viewport
    calls the recenter policy asks for, clears the first-draw flag and
    records the token of a forced recenter. *)
Lemma redraw_mounted (p : Props) (s : State) :
  Spec.mounted s ->
  exists s',
    redraw p s = Some s' /\
    Spec.mounted s' /\
    Spec.viewCallsOf s' = Spec.viewCallsOf s ++ recenterCalls p s /\
    firstDrawRef s' = false /\
    lastRecenterTokenRef s' =
      (if forceRecenter p s then recenterToken p else lastRecenterTokenRef s) /\
    routeLine s' = routeLine s /\
    userLocation s' = userLocation s.
Proof.
  intros (Hm & Hg). unfold redraw, Spec.viewCallsOf.
  destruct (mapRef s) as [m|]; [|contradiction].
  destruct (layerGroupRef s) as [g|]; [|contradiction].
  pose proof (drawLayers_total p s) as Hd.
  destruct (drawLayers p s) as [layers|]; [|contradiction].
  eexists. split; [reflexivity|]. simpl.
  repeat split; discriminate.
Qed.

(** C2.  A mounted controller redraws with the integer token [t].  The
    redraw goes through and leaves [t] as the last applied token.  If [t]
    was already the last applied token and this is not the first draw, no
    viewport call is made.  If [t] differs from the last applied token,
    exactly one viewport call is made.  Any redraw that follows with the
    same token, before the first-draw flag is armed again, makes no viewport
    call, whatever else changed in between. *)
Theorem C2_recenter_follows_token (p : Props) (s : State) (t : Z) :
  Spec.mounted s ->
  recenterToken p = Some t ->
  exists s',
    redraw p s = Some s' /\
    Spec.mounted s' /\
    lastRecenterTokenRef s' = Some t /\
    firstDrawRef s' = false /\
    (lastRecenterTokenRef s = Some t -> firstDrawRef s = false ->
     Spec.viewCallsOf s' = Spec.viewCallsOf s) /\
    (lastRecenterTokenRef s <> Some t ->
     exists call, Spec.viewCallsOf s' = Spec.viewCallsOf s ++ [call]) /\
    (forall p' s1,
        recenterToken p' = Some t ->
        mapRef s1 = mapRef s' ->
        layerGroupRef s1 = layerGroupRef s' ->
        firstDrawRef s1 = firstDrawRef s' ->
        lastRecenterTokenRef s1 = lastRecenterTokenRef s' ->
        exists s2,
          redraw p' s1 = Some s2 /\
          Spec.viewCallsOf s2 = Spec.viewCallsOf s' /\
          lastRecenterTokenRef s2 = Some t).
Proof.
  intros Hmounted Htoken.
  destruct (redraw_mounted p s Hmounted)
    as (s' & Hr & Hm' & Hcalls & Hfirst & Hlast & _).
  assert (Hlast' : lastRecenterTokenRef s' = Some t).
  { rewrite Hlast. unfold forceRecenter. rewrite Htoken.
    destruct (lastRecenterTokenRef s) as [l|]; [|reflexivity].
    destruct (Z.eqb_spec t l) as [->|Hne]; reflexivity. }
  exists s'. repeat (split; [assumption|]). split; [|split].
  - intros Hsame Hnotfirst. rewrite Hcalls.
    unfold recenterCalls, shouldRecenter, forceRecenter.
    rewrite Htoken, Hsame, Hnotfirst, Z.eqb_refl. simpl. apply app_nil_r.
  - intro Hdiff. rewrite Hcalls.
    assert (Hforce : forceRecenter p s = true).
    { unfold forceRecenter. rewrite Htoken.
      destruct (lastRecenterTokenRef s) as [l|]; [|reflexivity].
      destruct (Z.eqb_spec t l) as [->|Hne]; [contradiction|reflexivity]. }
    unfold recenterCalls, shouldRecenter. rewrite Hforce, orb_true_r.
    destruct (polylineBounds s); eexists; reflexivity.
  - intros p' s1 Htoken' Hmap Hgroup Hfirst1 Hlast1.
    assert (Hm1 : Spec.mounted s1).
    { destruct Hm' as (Ha & Hb). split; congruence. }
    destruct (redraw_mounted p' s1 Hm1)
      as (s2 & Hr2 & _ & Hcalls2 & _ & Hlast2 & _).
    assert (Hforce : forceRecenter p' s1 = false).
    { unfold forceRecenter. rewrite Htoken', Hlast1, Hlast', Z.eqb_refl.
      reflexivity. }
    exists s2. split; [exact Hr2|]. split.
    + rewrite Hcalls2. unfold recenterCalls, shouldRecenter.
      rewrite Hforce, Hfirst1, Hfirst. simpl. rewrite app_nil_r.
      unfold Spec.viewCallsOf. now rewrite Hmap.
    + rewrite Hlast2, Hforce, Hlast1. exact Hlast'.
Qed.

Lemma C2_witness :
  exists s',
    redraw (Examples.props Examples.withPath (Some 1%Z)) Examples.drawnOnce
      = Some s' /\
    lastRecenterTokenRef s' = Some 1%Z /\
    exists call, Spec.viewCallsOf s' = Spec.viewCallsOf Examples.drawnOnce ++ [call].
Proof.
  destruct (C2_recenter_follows_token
              (Examples.props Examples.withPath (Some 1%Z)) Examples.drawnOnce 1)
    as (s' & Hr & _ & Hl & _ & _ & Hone & _).
  - split; discriminate.
  - reflexivity.
  - exists s'. split; [exact Hr|]. split; [exact Hl|].
    apply Hone. discriminate.
Defined.

(** C6.  When a redraw of a mounted controller recenters: with fewer than
    two points in the route line it makes the one call
    [setView(center, zoom)], where the zoom is 16 for a forced recenter and
    14 for a first draw whose token did not change, and 14 < 16; with two
    points or more it makes the one call [fitBounds(bounds, padding 32)],
    where the bounds are a box around every point of the route line. *)
Theorem C6_recenter_target (p : Props) (s : State) :
  Spec.mounted s ->
  shouldRecenter p s = true ->
  exists s',
    redraw p s = Some s' /\
    ((List.length (routeLine s) < 2)%nat ->
     Spec.viewCallsOf s' =
       Spec.viewCallsOf s ++
       [SetView (lat (center p s), lng (center p s))
          (if forceRecenter p s then 16 else 14)]) /\
    ((List.length (routeLine s) < 2)%nat -> forceRecenter p s = true ->
     Spec.viewCallsOf s' =
       Spec.viewCallsOf s ++ [SetView (lat (center p s), lng (center p s)) 16]) /\
    ((List.length (routeLine s) < 2)%nat -> forceRecenter p s = false ->
     firstDrawRef s = true /\
     Spec.viewCallsOf s' =
       Spec.viewCallsOf s ++ [SetView (lat (center p s), lng (center p s)) 14]) /\
    (14 < 16)%Z /\
    ((2 <= List.length (routeLine s))%nat ->
     exists south west north east,
       Spec.viewCallsOf s' =
         Spec.viewCallsOf s ++ [FitBounds (Box south west north east) (32, 32)%Z] /\
       getBounds (map (fun q => (lat q, lng q)) (routeLine s)) =
         Box south west north east /\
       forall q, In q (routeLine s) ->
                 Spec.inBounds (Box south west north east) (lat q, lng q)).
Proof.
  intros Hmounted Hshould.
  destruct (redraw_mounted p s Hmounted) as (s' & Hr & _ & Hcalls & _).
  exists s'. split; [exact Hr|].
  assert (Hfew : (List.length (routeLine s) < 2)%nat ->
                 recenterCalls p s =
                   [SetView (centerArray p s) (if forceRecenter p s then 16 else 14)]).
  { intro Hlen. unfold recenterCalls, polylineBounds. rewrite Hshould.
    destruct (Nat.ltb_spec 1 (List.length (routeLine s))); [lia|reflexivity]. }
  split; [|split; [|split; [|split]]].
  - intro Hlen. rewrite Hcalls, (Hfew Hlen). reflexivity.
  - intros Hlen Hforce. rewrite Hcalls, (Hfew Hlen), Hforce. reflexivity.
  - intros Hlen Hforce. split.
    + unfold shouldRecenter in Hshould. rewrite Hforce, orb_false_r in Hshould.
      exact Hshould.
    + rewrite Hcalls, (Hfew Hlen), Hforce. reflexivity.
  - reflexivity.
  - intro Hlen.
    destruct (getBounds_spec (map (fun q => (lat q, lng q)) (routeLine s)))
      as (so & we & no & ea & Hb & Hin).
    { destruct (routeLine s); [simpl in Hlen; lia|discriminate]. }
    exists so, we, no, ea. split; [|split].
    + rewrite Hcalls. unfold recenterCalls, polylineBounds. rewrite Hshould.
      destruct (Nat.ltb_spec 1 (List.length (routeLine s))); [|lia].
      now rewrite Hb.
    + exact Hb.
    + intros q Hq. rewrite <- Hb. apply Hin.
      apply (in_map (fun q => (lat q, lng q))). exact Hq.
Qed.

Lemma C6_witness :
  exists s',
    redraw (Examples.props Examples.withPath (Some 1%Z)) Examples.drawnOnce
      = Some s' /\
    exists south west north east,
      Spec.viewCallsOf s' =
        Spec.viewCallsOf Examples.drawnOnce ++
        [FitBounds (Box south west north east) (32, 32)%Z].
Proof.
  destruct (C6_recenter_target
              (Examples.props Examples.withPath (Some 1%Z)) Examples.drawnOnce)
    as (s' & Hr & _ & _ & _ & _ & Hfit).
  - split; discriminate.
  - reflexivity.
  - exists s'. split; [exact Hr|].
    destruct Hfit as (so & we & no & ea & Hc & _); [simpl; lia|].
    now exists so, we, no, ea.
Defined.

(** * Further properties of the two components *)

(** ** The simulator over a whole run *)

Lemma activeSegment_exists (segs : list Segment.t) (fraction : Q) :
  segs <> [] -> 0 <= totalDur segs -> fraction <= 1 ->
  exists k, activeSegment segs fraction = Some k.
Proof.
  intros Hne Htotal Hf.
  destruct (scanSegments_total segs 0%nat 0 (totalDur segs * fraction)
              (List.length segs - 1)) as (k & _ & Hk).
  - destruct segs; [contradiction|simpl; lia].
  - rewrite cumulative_last by exact Hne. nra.
  - exists k. exact Hk.
Qed.

(** X1.  On a route whose segment list is stable, a tick computes the
    state cells from the clock alone.  When the frames [before] all stay
    below fraction 1, the cells after [before ++ [t]] are those of a run
    whose only frame is [t]: skipped or extra frames leave no trace. *)
Theorem X1_state_depends_on_clock_only
  (route : Route.t) (start t : Q) (before : list Q) :
  0 < Route.duration route ->
  segmentsStable route = true ->
  0 <= totalDur (segments route) ->
  (forall u, In u before -> fractionAt route (u - start) < 1) ->
  let a := run route start (map Frame (before ++ [t])) in
  let b := run route start [Frame t] in
  progress a = progress b /\
  remainingMinutes a = remainingMinutes b /\
  remainingDistance a = remainingDistance b /\
  currentSegmentIndex a = currentSegmentIndex b.
Proof.
  intros _ _ Htotal Hbelow a b.
  destruct (mount_queue route start) as (Hq & _ & _).
  destruct (frames_below route start before Hbelow (mount route start) 1%nat Hq)
    as ((h & Hq') & _ & _).
  fold (run route start (map Frame before)) in Hq'.
  assert (Ha : a = frame route t (run route start (map Frame before))).
  { unfold a, run. rewrite map_app, fold_left_app. reflexivity. }
  destruct (frame_live route t start h _ Hq') as (c0 & Hf0 & _).
  destruct (frame_live route t start 1%nat _ Hq) as (c1 & Hf1 & _).
  assert (Hb : b = tick route start t c1) by (rewrite <- Hf1; reflexivity).
  rewrite Ha, Hf0, Hb.
  pose proof (tick_effect route start t c0) as E0.
  pose proof (tick_effect route start t c1) as E1.
  destruct (activeSegment_exists (segments route) (fractionAt route (t - start))
              (segments_nonempty route) Htotal (fractionAt_le_1 route _))
    as [k Hk].
  rewrite (Spec.te_progress _ _ _ _ _ E0), (Spec.te_progress _ _ _ _ _ E1),
    (Spec.te_minutes _ _ _ _ _ E0), (Spec.te_minutes _ _ _ _ _ E1),
    (Spec.te_distance _ _ _ _ _ E0), (Spec.te_distance _ _ _ _ _ E1),
    (Spec.te_segment _ _ _ _ _ E0), (Spec.te_segment _ _ _ _ _ E1), Hk.
  repeat split; reflexivity.
Qed.

Lemma X1_witness :
  progress (run Examples.twoLegs 0 (map Frame ([16; 32; 48] ++ [30000]))) =
  progress (run Examples.twoLegs 0 [Frame 30000]).
Proof.
  refine (proj1 (X1_state_depends_on_clock_only Examples.twoLegs 0 30000
                   [16; 32; 48] _ _ _ _)).
  - reflexivity.
  - reflexivity.
  - discriminate.
  - intros u [<-|[<-|[<-|[]]]]; reflexivity.
Defined.

(** The two shapes a run without teardown can be in: one tick queued,
    nothing completed, fraction below 1; or nothing queued, completed
    once, fraction at least 1. *)
Lemma frames_invariant (route : Route.t) (start : Q) (ts : list Q) :
  forall c : Component,
    ((exists h, frameQueue c = [(h, start)]) /\
     completions c = 0%nat /\ progress c < 1) \/
    (frameQueue c = [] /\ completions c = 1%nat /\ 1 <= progress c) ->
    let c' := fold_left (step route) (map Frame ts) c in
    ((exists h, frameQueue c' = [(h, start)]) /\
     completions c' = 0%nat /\ progress c' < 1) \/
    (frameQueue c' = [] /\ completions c' = 1%nat /\ 1 <= progress c').
Proof.
  induction ts as [|t ts IH]; intros c Hinv; [exact Hinv|].
  simpl. apply IH.
  destruct Hinv as [((h & Hq) & Hc & Hp)|(Hq & Hc & Hp)].
  - destruct (frame_live route t start h c Hq) as (c0 & Hf & Hq0 & Hl0 & _).
    pose proof (tick_effect route start t c0) as E.
    rewrite Hf, (Spec.te_queue _ _ _ _ _ E), (Spec.te_completions _ _ _ _ _ E),
      (Spec.te_progress _ _ _ _ _ E), Hq0.
    assert (Hc0 : completions c0 = 0%nat)
      by (unfold completions; rewrite Hl0; exact Hc).
    rewrite Hc0.
    destruct (Js.ltb (fractionAt route (t - start)) 1) eqn:Hb.
    + left. split; [eexists; reflexivity|]. split; [reflexivity|].
      now apply ltb_lt.
    + right. split; [reflexivity|]. split; [reflexivity|]. now apply ltb_ge.
  - right. rewrite frame_idle by exact Hq. auto.
Qed.

(** X2.  On a route whose segment list is stable, whatever frames arrive
    without a teardown: [onComplete] is called at most once, at most one
    tick is queued, the call has happened exactly when no tick is queued,
    and the footer shows the arrival line exactly when the call has
    happened. *)
Theorem X2_run_completes_at_most_once
  (route : Route.t) (start : Q) (ts : list Q) :
  0 < Route.duration route ->
  segmentsStable route = true ->
  let c := run route start (map Frame ts) in
  (completions c <= 1)%nat /\
  (List.length (frameQueue c) <= 1)%nat /\
  (completions c = 1%nat <-> frameQueue c = []) /\
  (footerMessage c = "Arrived mindfully. Nice work!"%string <->
   completions c = 1%nat).
Proof.
  intros _ _ c.
  destruct (frames_invariant route start ts (mount route start)) as
    [((h & Hq) & Hc & Hp)|(Hq & Hc & Hp)].
  - left. split; [exists 1%nat; reflexivity|]. split; reflexivity.
  - fold (run route start (map Frame ts)) in Hq, Hc, Hp. fold c in Hq, Hc, Hp.
    unfold footerMessage. rewrite (proj2 (ltb_lt _ _) Hp), Hq, Hc. simpl.
    repeat split; try lia; try discriminate.
  - fold (run route start (map Frame ts)) in Hq, Hc, Hp. fold c in Hq, Hc, Hp.
    unfold footerMessage. rewrite (proj2 (ltb_ge _ _) Hp), Hq, Hc. simpl.
    repeat split; try lia; try reflexivity.
Qed.

Lemma X2_witness :
  Nat.le
    (completions (run Examples.twoLegs 0 (map Frame [16; 60000; 60016; 60032])))
    1.
Proof.
  refine (proj1 (X2_run_completes_at_most_once Examples.twoLegs 0
                   [16; 60000; 60016; 60032] _ _)); reflexivity.
Defined.

(** X3.  For a fixed list of segments whose durations sum to a non-negative
    number, the active segment never moves back when the fraction grows. *)
Theorem X3_active_segment_is_monotone
  (segs : list Segment.t) (f1 f2 : Q) (i1 i2 : nat) :
  0 <= totalDur segs ->
  f1 <= f2 ->
  activeSegment segs f1 = Some i1 ->
  activeSegment segs f2 = Some i2 ->
  (i1 <= i2)%nat.
Proof.
  intros Htotal Hf H1 H2.
  apply activeSegment_spec in H1, H2.
  destruct H1 as (_ & _ & Hall1). destruct H2 as (_ & Hreach2 & _).
  destruct (Nat.le_gt_cases i1 i2) as [H|H]; [exact H|].
  specialize (Hall1 i2 H). nra.
Qed.

Lemma X3_witness : (0 <= 1)%nat.
Proof.
  refine (X3_active_segment_is_monotone (segments Examples.twoLegs)
            (1 # 4) (3 # 4) 0 1 _ _ _ _);
    [discriminate | discriminate | reflexivity | reflexivity].
Defined.

(** ** The segment shown in the header *)

Lemma activeSegment_in_range (segs : list Segment.t) (fraction : Q) (k : nat) :
  activeSegment segs fraction = Some k -> (k < List.length segs)%nat.
Proof.
  intro H. apply activeSegment_spec in H. exact (proj1 H).
Qed.

Lemma tick_index_in_range (route : Route.t) (start now : Q) (c : Component) :
  (currentSegmentIndex c < List.length (segments route))%nat ->
  (currentSegmentIndex (tick route start now c) < List.length (segments route))%nat.
Proof.
  intro H.
  rewrite (Spec.te_segment _ _ _ _ _ (tick_effect route start now c)).
  destruct (activeSegment (segments route) (fractionAt route (now - start)))
    as [k|] eqn:E; [|exact H].
  now apply activeSegment_in_range in E.
Qed.

Lemma ticks_index_in_range (route : Route.t) (now : Q) (due : list (nat * Q)) :
  forall c : Component,
    (currentSegmentIndex c < List.length (segments route))%nat ->
    (currentSegmentIndex (fold_left (fun c cb => tick route (snd cb) now c) due c)
     < List.length (segments route))%nat.
Proof.
  induction due as [|cb due IH]; intros c H; [exact H|].
  simpl. apply IH. now apply tick_index_in_range.
Qed.

Lemma step_index_in_range (route : Route.t) (a : action) (c : Component) :
  (currentSegmentIndex c < List.length (segments route))%nat ->
  (currentSegmentIndex (step route c a) < List.length (segments route))%nat.
Proof.
  intro H. destruct a as [now|]; simpl.
  - unfold frame. apply ticks_index_in_range. exact H.
  - unfold unmount. destruct (cleanupHandle c); exact H.
Qed.

Lemma run_index_in_range (route : Route.t) (start : Q) (actions : list action) :
  (currentSegmentIndex (run route start actions) < List.length (segments route))%nat.
Proof.
  unfold run.
  assert (H0 : (currentSegmentIndex (mount route start)
                < List.length (segments route))%nat).
  { simpl. pose proof (segments_nonempty route).
    destruct (segments route); [contradiction|simpl; lia]. }
  revert H0. generalize (mount route start).
  induction actions as [|a actions IH]; intros c H; [exact H|].
  simpl. apply IH. now apply step_index_in_range.
Qed.

(** X4.  Through any run, frames and teardown in any order, the index
    of the current segment stays inside the segment list: the header always
    has a segment to show and its label is never the empty fallback. *)
Theorem X4_current_segment_is_always_defined
  (route : Route.t) (start : Q) (actions : list action) :
  0 < Route.duration route ->
  let c := run route start actions in
  (currentSegmentIndex c < List.length (segments route))%nat /\
  (exists seg, currentSegment route c = Some seg) /\
  formatSegmentLabel route c <> ""%string.
Proof.
  intros _ c.
  pose proof (run_index_in_range route start actions) as Hidx. fold c in Hidx.
  split; [exact Hidx|].
  unfold formatSegmentLabel, currentSegment.
  destruct (nth_error (segments route) (currentSegmentIndex c)) as [seg|] eqn:E.
  - split; [now exists seg|].
    destruct (isLastSegment route c && Segment.isLastMile seg)%bool;
      [discriminate|].
    destruct (Segment.startPoint seg); discriminate.
  - apply nth_error_None in E. lia.
Qed.

Lemma X4_witness :
  formatSegmentLabel Examples.twoLegs
    (run Examples.twoLegs 0 [Frame 16; Unmount; Frame 30000; Frame 90000])
  <> ""%string.
Proof.
  refine (proj2 (proj2 (X4_current_segment_is_always_defined Examples.twoLegs 0
                          [Frame 16; Unmount; Frame 30000; Frame 90000] _))).
  reflexivity.
Defined.

(** X5.  On a route without segments the header shows the last-mile label
    and the walk badge from the mount on, through any run. *)
Theorem X5_route_without_segments_shows_last_mile
  (route : Route.t) (start : Q) (actions : list action) :
  0 < Route.duration route ->
  Spec.zeroSegments route ->
  let c := run route start actions in
  currentSegmentIndex c = 0%nat /\
  formatSegmentLabel route c = "Last mile walk to destination"%string /\
  segmentBadge route c = "Walk segment"%string.
Proof.
  intros _ Hzero c.
  pose proof (run_index_in_range route start actions) as Hidx. fold c in Hidx.
  unfold formatSegmentLabel, segmentBadge, currentSegment, isLastSegment.
  rewrite (segments_of_zero route Hzero) in *. simpl in Hidx.
  assert (H0 : currentSegmentIndex c = 0%nat) by lia.
  rewrite H0. simpl. repeat split; reflexivity.
Qed.

Lemma X5_witness :
  formatSegmentLabel (Examples.plain None)
    (run (Examples.plain None) 0 [Frame 16; Frame 300000; Frame 600000])
  = "Last mile walk to destination"%string.
Proof.
  refine (proj1 (proj2 (X5_route_without_segments_shows_last_mile
                          (Examples.plain None) 0
                          [Frame 16; Frame 300000; Frame 600000] _ _))).
  - reflexivity.
  - left. reflexivity.
Defined.

(** ** The values a tick stores *)

Lemma Math_round_of_zero (x : Q) : x == 0 -> Js.Math_round x = 0.
Proof.
  intro H. unfold Js.Math_round.
  rewrite (Qfloor_comp (x + (1 # 2)) (1 # 2)) by (rewrite H; reflexivity).
  reflexivity.
Qed.

Lemma toFixed2_of_zero (x : Q) : x == 0 -> Js.toFixed2 x == 0.
Proof.
  intro H. unfold Js.toFixed2.
  assert (Habs : Qabs x == 0) by (rewrite H; reflexivity).
  assert (H1 : Qle_bool (inject_Z (10 ^ 21)) (Qabs x) = false).
  { apply Qle_bool_false. rewrite Habs. reflexivity. }
  assert (H2 : Js.ltb x 0 = false) by (apply ltb_ge; rewrite H; apply Qle_refl).
  cbv zeta. rewrite H1, H2.
  rewrite (Qfloor_comp (Qabs x * 100 + (1 # 2)) (1 # 2))
    by (rewrite Habs; reflexivity).
  reflexivity.
Qed.

Lemma fractionAt_complete (route : Route.t) (e : Q) :
  0 < Route.duration route -> durationMs route <= e -> fractionAt route e == 1.
Proof.
  intros Hd He. unfold fractionAt, Js.Math_min.
  apply Q.min_r. apply Qle_shift_div_l; [now apply durationMs_pos|lra].
Qed.

(** X6.  The tick that runs once the planned duration has elapsed stores
    fraction 1, 0 minutes and 0 km, and it is the tick that calls
    [onComplete]. *)
Theorem X6_completing_tick_stores_zero
  (route : Route.t) (start now : Q) (c : Component) :
  0 < Route.duration route ->
  durationMs route <= now - start ->
  progress (tick route start now c) == 1 /\
  remainingMinutes (tick route start now c) == 0 /\
  remainingDistance (tick route start now c) == 0 /\
  completions (tick route start now c) = S (completions c) /\
  frameQueue (tick route start now c) = frameQueue c.
Proof.
  intros Hd He.
  pose proof (tick_effect route start now c) as E.
  pose proof (fractionAt_complete route (now - start) Hd He) as Hf.
  assert (Hb : Js.ltb (fractionAt route (now - start)) 1 = false)
    by (apply ltb_ge; rewrite Hf; apply Qle_refl).
  rewrite (Spec.te_progress _ _ _ _ _ E), (Spec.te_minutes _ _ _ _ _ E),
    (Spec.te_distance _ _ _ _ _ E), (Spec.te_completions _ _ _ _ _ E),
    (Spec.te_queue _ _ _ _ _ E), Hb.
  split; [exact Hf|]. split; [|split; [|split]].
  - unfold remainingMinutesAt, Js.Math_max.
    rewrite Math_round_of_zero by (rewrite Hf; ring). reflexivity.
  - unfold remainingDistanceAt, Js.Math_max.
    rewrite toFixed2_of_zero by (rewrite Hf; ring). reflexivity.
  - lia.
  - apply app_nil_r.
Qed.

Lemma X6_witness :
  remainingMinutes (tick Examples.twoLegs 0 61000 (mount Examples.twoLegs 0)) == 0.
Proof.
  refine (proj1 (proj2 (X6_completing_tick_stores_zero Examples.twoLegs 0 61000
                          (mount Examples.twoLegs 0) _ _))).
  - reflexivity.
  - discriminate.
Defined.

Lemma totalDur_positive (segs : list Segment.t) :
  (forall seg, In seg segs -> 0 < Segment.duration seg) ->
  segs <> [] -> 0 < totalDur segs.
Proof.
  induction segs as [|seg rest IH]; intros Hpos Hne; [contradiction|].
  rewrite totalDur_cons.
  pose proof (Hpos seg (or_introl eq_refl)) as Hseg.
  destruct rest as [|seg' rest'].
  - unfold totalDur. simpl. lra.
  - assert (0 < totalDur (seg' :: rest')).
    { apply IH; [|discriminate]. intros x Hx. apply Hpos. now right. }
    lra.
Qed.

Lemma cumulative_below_total (segs : list Segment.t) :
  (forall seg, In seg segs -> 0 < Segment.duration seg) ->
  forall j, (S j < List.length segs)%nat ->
            Spec.cumulativeDuration segs j < totalDur segs.
Proof.
  induction segs as [|seg rest IH]; intros Hpos j Hj; [simpl in Hj; lia|].
  rewrite totalDur_cons. destruct j as [|j].
  - rewrite cumulative_head.
    assert (0 < totalDur rest).
    { apply totalDur_positive.
      - intros x Hx. apply Hpos. now right.
      - destruct rest; [simpl in Hj; lia|discriminate]. }
    lra.
  - rewrite cumulative_tail.
    assert (Spec.cumulativeDuration rest j < totalDur rest).
    { apply IH; [|simpl in Hj; lia]. intros x Hx. apply Hpos. now right. }
    lra.
Qed.

(** X7.  When every segment has a positive duration, the tick at the start
    instant selects the first segment and the tick that runs once the
    planned duration has elapsed selects the last one. *)
Theorem X7_first_segment_at_start_last_at_completion
  (route : Route.t) (start : Q) (c : Component) :
  0 < Route.duration route ->
  (forall seg, In seg (segments route) -> 0 < Segment.duration seg) ->
  currentSegmentIndex (tick route start start c) = 0%nat /\
  (forall now,
      durationMs route <= now - start ->
      currentSegmentIndex (tick route start now c) =
        (List.length (segments route) - 1)%nat /\
      isLastSegment route (tick route start now c) = true).
Proof.
  intros Hd Hpos.
  pose proof (segments_nonempty route) as Hne.
  pose proof (totalDur_positive _ Hpos Hne) as Htotal.
  split.
  - rewrite (Spec.te_segment _ _ _ _ _ (tick_effect route start start c)).
    assert (Hf : fractionAt route (start - start) == 0).
    { unfold fractionAt, Js.Math_min. rewrite Q.min_l.
      - unfold Qdiv. ring.
      - unfold Qdiv. setoid_replace (start - start) with 0 by ring.
        rewrite Qmult_0_l. discriminate. }
    assert (H0 : activeSegment (segments route) (fractionAt route (start - start))
                 = Some 0%nat).
    { apply activeSegment_spec. split; [|split].
      - destruct (segments route); [contradiction|simpl; lia].
      - destruct (segments route) as [|seg rest]; [contradiction|].
        rewrite cumulative_head.
        pose proof (Hpos seg (or_introl eq_refl)). rewrite Hf. lra.
      - intros j Hj. lia. }
    now rewrite H0.
  - intros now He.
    pose proof (fractionAt_complete route (now - start) Hd He) as Hf.
    assert (Hlast : activeSegment (segments route) (fractionAt route (now - start))
                    = Some (List.length (segments route) - 1)%nat).
    { apply activeSegment_spec. split; [|split].
      - destruct (segments route); [contradiction|simpl; lia].
      - rewrite cumulative_last by exact Hne. rewrite Hf. lra.
      - intros j Hj.
        assert (Hlt : Spec.cumulativeDuration (segments route) j
                      < totalDur (segments route))
          by (apply cumulative_below_total; [exact Hpos|lia]).
        rewrite Hf. lra. }
    assert (Hidx : currentSegmentIndex (tick route start now c) =
                   (List.length (segments route) - 1)%nat).
    { rewrite (Spec.te_segment _ _ _ _ _ (tick_effect route start now c)).
      now rewrite Hlast. }
    split; [exact Hidx|].
    unfold isLastSegment. rewrite Hidx. apply Nat.eqb_refl.
Qed.

Lemma X7_witness :
  currentSegmentIndex (tick Examples.twoLegs 0 0 (mount Examples.twoLegs 0)) = 0%nat.
Proof.
  refine (proj1 (X7_first_segment_at_start_last_at_completion Examples.twoLegs 0
                   (mount Examples.twoLegs 0) _ _)).
  - reflexivity.
  - intros seg [<-|[<-|[]]]; reflexivity.
Defined.

Lemma Math_round_mono (x y : Q) : x <= y -> Js.Math_round x <= Js.Math_round y.
Proof.
  intro H. unfold Js.Math_round. rewrite <- Zle_Qle.
  apply Qfloor_resp_le. lra.
Qed.

Lemma toFixed2_mono (x y : Q) : 0 <= x -> x <= y -> Js.toFixed2 x <= Js.toFixed2 y.
Proof.
  intros Hx Hxy.
  assert (Hy : 0 <= y) by lra.
  pose proof (Qabs_pos x Hx) as Hax. pose proof (Qabs_pos y Hy) as Hay.
  unfold Js.toFixed2. cbv zeta.
  rewrite (proj2 (ltb_ge x 0) Hx), (proj2 (ltb_ge y 0) Hy).
  destruct (Qle_bool (inject_Z (10 ^ 21)) (Qabs x)) eqn:Bx;
    destruct (Qle_bool (inject_Z (10 ^ 21)) (Qabs y)) eqn:By.
  - exact Hxy.
  - apply Qle_bool_iff in Bx. apply Qle_bool_false in By. lra.
  - apply Qle_bool_false in Bx. apply Qle_bool_iff in By.
    assert (Hn : (Qfloor (Qabs x * 100 + (1 # 2)) <= 10 ^ 23)%Z).
    { change (10 ^ 23)%Z with (Qfloor (inject_Z (10 ^ 21) * 100 + (1 # 2))).
      apply Qfloor_resp_le. lra. }
    rewrite Zle_Qle in Hn.
    assert (H23 : inject_Z (10 ^ 23) == inject_Z (10 ^ 21) * 100) by reflexivity.
    apply Qle_shift_div_r; [reflexivity|]. lra.
  - assert (Hn : (Qfloor (Qabs x * 100 + (1 # 2)) <=
                  Qfloor (Qabs y * 100 + (1 # 2)))%Z)
      by (apply Qfloor_resp_le; lra).
    rewrite Zle_Qle in Hn.
    unfold Qdiv. apply Qmult_le_compat_r; [exact Hn|discriminate].
Qed.

Lemma distanceOrDefault_nonneg (route : Route.t) :
  (forall d, Route.distance route = Some d -> 0 <= d) ->
  0 <= distanceOrDefault route.
Proof.
  intro H. unfold distanceOrDefault, Js.orNumber.
  destruct (Route.distance route) as [d|]; [|discriminate].
  destruct (Qeq_bool d 0); [discriminate|]. now apply H.
Qed.

(** X8.  The countdown never goes up: with a planned distance that is not
    negative, a later elapsed time gives remaining minutes and a remaining
    distance that are at most the earlier ones, and neither is ever
    negative. *)
Theorem X8_countdown_never_goes_up (route : Route.t) (e1 e2 : Q) :
  0 < Route.duration route ->
  (forall d, Route.distance route = Some d -> 0 <= d) ->
  e1 <= e2 ->
  remainingMinutesAt route (fractionAt route e2) <=
    remainingMinutesAt route (fractionAt route e1) /\
  remainingDistanceAt route (fractionAt route e2) <=
    remainingDistanceAt route (fractionAt route e1) /\
  0 <= remainingMinutesAt route (fractionAt route e2) /\
  0 <= remainingDistanceAt route (fractionAt route e2).
Proof.
  intros Hd Hdist Hle.
  pose proof (fractionAt_mono route e1 e2 Hd Hle) as Hf.
  pose proof (fractionAt_le_1 route e1) as H1.
  pose proof (fractionAt_le_1 route e2) as H2.
  pose proof (distanceOrDefault_nonneg route Hdist) as Hnn.
  unfold remainingMinutesAt, remainingDistanceAt, Js.Math_max.
  split; [|split; [|split]].
  - apply Q.max_le_compat_r. apply Math_round_mono. nra.
  - apply Q.max_le_compat_r. apply toFixed2_mono; nra.
  - apply Q.le_max_r.
  - apply Q.le_max_r.
Qed.

Lemma X8_witness :
  remainingMinutesAt Examples.twoLegs (fractionAt Examples.twoLegs 45000) <=
  remainingMinutesAt Examples.twoLegs (fractionAt Examples.twoLegs 15000).
Proof.
  refine (proj1 (X8_countdown_never_goes_up Examples.twoLegs 15000 45000 _ _ _)).
  - reflexivity.
  - intros d H. injection H as <-. discriminate.
  - discriminate.
Defined.

(** X9.  What a tick stores stays within the plan: for an elapsed time
    that is not negative and a distance in use that is not negative, the
    remaining minutes are a whole number from 0 to [Math.round(duration)],
    and the remaining distance lies between 0 and the distance in use
    rounded to two decimals. *)
Theorem X9_remaining_values_stay_within_the_plan (route : Route.t) (e : Q) :
  0 < Route.duration route ->
  0 <= distanceOrDefault route ->
  0 <= e ->
  let fraction := fractionAt route e in
  (exists m : Z, (0 <= m)%Z /\ remainingMinutesAt route fraction == inject_Z m) /\
  0 <= remainingMinutesAt route fraction <= Js.Math_round (Route.duration route) /\
  0 <= remainingDistanceAt route fraction <= Js.toFixed2 (distanceOrDefault route).
Proof.
  intros Hd Hnn He fraction.
  pose proof (fractionAt_nonneg route e Hd He) as Hf0.
  pose proof (fractionAt_le_1 route e) as Hf1. fold fraction in Hf0, Hf1.
  assert (Hround0 : 0 <= Js.Math_round (Route.duration route)).
  { change 0 with (Js.Math_round (- (1 # 2))). apply Math_round_mono. lra. }
  assert (Hfixed0 : 0 <= Js.toFixed2 (distanceOrDefault route)).
  { rewrite <- (toFixed2_of_zero 0) by reflexivity.
    apply toFixed2_mono; [apply Qle_refl|exact Hnn]. }
  unfold remainingMinutesAt, remainingDistanceAt, Js.Math_max.
  split; [|split].
  - unfold Js.Math_round.
    exists (Z.max (Qfloor (Route.duration route * (1 - fraction) + (1 # 2))) 0).
    split; [apply Z.le_max_r|].
    destruct (Z.max_spec (Qfloor (Route.duration route * (1 - fraction) + (1 # 2))) 0)
      as [(Hlt & ->)|(Hge & ->)].
    + apply Q.max_r. change 0 with (inject_Z 0). rewrite <- Zle_Qle. lia.
    + apply Q.max_l. change 0 with (inject_Z 0). rewrite <- Zle_Qle. exact Hge.
  - split; [apply Q.le_max_r|].
    apply Q.max_lub; [|exact Hround0].
    apply Math_round_mono. nra.
  - split; [apply Q.le_max_r|].
    apply Q.max_lub; [|exact Hfixed0].
    apply toFixed2_mono; nra.
Qed.

Lemma X9_witness :
  0 <= remainingMinutesAt Examples.twoLegs (fractionAt Examples.twoLegs 12345)
    <= Js.Math_round (Route.duration Examples.twoLegs).
Proof.
  refine (proj1 (proj2 (X9_remaining_values_stay_within_the_plan Examples.twoLegs
                          12345 _ _ _))).
  - reflexivity.
  - discriminate.
  - discriminate.
Defined.

(** ** Teardown and a second run of the effect *)

Lemma filter_setters_emit (e : event) (c : Component) :
  filter Spec.isSetterOrCallback (log (emit e c)) =
  filter Spec.isSetterOrCallback (log c) ++
  (if Spec.isSetterOrCallback e then [e] else []).
Proof.
  unfold emit. simpl. rewrite filter_app. simpl.
  destruct (Spec.isSetterOrCallback e); reflexivity.
Qed.

(** Once nothing is queued, frames and teardowns change neither the state
    cells nor the queue, and no setter or callback is called. *)
Lemma idle_forever (route : Route.t) (actions : list action) :
  forall c : Component,
    frameQueue c = [] ->
    let c' := fold_left (step route) actions c in
    frameQueue c' = [] /\
    filter Spec.isSetterOrCallback (log c') =
      filter Spec.isSetterOrCallback (log c) /\
    progress c' = progress c /\
    remainingMinutes c' = remainingMinutes c /\
    remainingDistance c' = remainingDistance c /\
    currentSegmentIndex c' = currentSegmentIndex c.
Proof.
  induction actions as [|a actions IH]; intros c Hq; simpl.
  - repeat split; auto.
  - destruct a as [now|]; simpl.
    + rewrite frame_idle by exact Hq. now apply IH.
    + unfold unmount. destruct (cleanupHandle c) as [h|]; [|now apply IH].
      destruct (IH (cancelAnimationFrame h c)) as (H1 & H2 & H3 & H4 & H5 & H6).
      { simpl. now rewrite Hq. }
      split; [exact H1|]. split; [|repeat split; assumption].
      rewrite H2. unfold cancelAnimationFrame. simpl.
      rewrite filter_app. simpl. apply app_nil_r.
Qed.

(** X10.  A teardown before the first frame ends the simulation for good:
    whatever frames and further teardowns follow, no state setter and no
    [onComplete] is ever called, nothing is queued, and the cells keep the
    values of the first render. *)
Theorem X10_teardown_before_first_frame_ends_the_run
  (route : Route.t) (start : Q) (actions : list action) :
  let c := run route start (Unmount :: actions) in
  filter Spec.isSetterOrCallback (log c) = [] /\
  completions c = 0%nat /\
  frameQueue c = [] /\
  progress c = 0 /\
  remainingMinutes c = Route.duration route /\
  remainingDistance c = distanceOrDefault route /\
  currentSegmentIndex c = 0%nat.
Proof.
  intro c.
  destruct (idle_forever route actions (unmount (mount route start)))
    as (H1 & H2 & H3 & H4 & H5 & H6); [reflexivity|].
  change (fold_left (step route) actions (unmount (mount route start)))
    with c in H1, H2, H3, H4, H5, H6.
  assert (Hnone : filter Spec.isSetterOrCallback (log c) = []) by (rewrite H2; reflexivity).
  split; [exact Hnone|]. split.
  - unfold completions.
    assert (Hsub : forall l, filter Spec.isSetterOrCallback l = [] ->
                             filter isOnComplete l = []).
    { induction l as [|e l IHl]; [reflexivity|]. simpl.
      destruct e; simpl; try discriminate; exact IHl. }
    now rewrite (Hsub _ Hnone).
  - split; [exact H1|]. rewrite H3, H4, H5, H6. repeat split; reflexivity.
Qed.

Lemma tick_below_next (route : Route.t) (start now : Q) (c : Component) :
  Js.ltb (fractionAt route (now - start)) 1 = true ->
  nextHandle (tick route start now c) = S (nextHandle c).
Proof.
  intro Hb. unfold tick. rewrite Hb.
  destruct (activeSegment (segments route) (fractionAt route (now - start)));
    reflexivity.
Qed.

(** After at least one tick the queued tick has a handle other than the one
    the cleanup holds. *)
Lemma frames_below_handles (route : Route.t) (start : Q) (ts : list Q) :
  (forall u, In u ts -> fractionAt route (u - start) < 1) ->
  forall (c : Component) (h : nat),
    frameQueue c = [(h, start)] ->
    (h < nextHandle c)%nat -> (2 <= nextHandle c)%nat ->
    cleanupHandle c = Some 1%nat ->
    ts <> [] ->
    let c' := fold_left (step route) (map Frame ts) c in
    exists h', frameQueue c' = [(h', start)] /\ (2 <= h')%nat /\
               cleanupHandle c' = Some 1%nat /\ completions c' = completions c.
Proof.
  induction ts as [|t ts IH]; intros Hlt c h Hq Hh Hn Hk Hne; [contradiction|].
  simpl.
  destruct (frame_live route t start h c Hq)
    as (c0 & Hf & Hq0 & Hl0 & Hn0 & _ & Hk0).
  pose proof (tick_effect route start t c0) as E.
  assert (Hb : Js.ltb (fractionAt route (t - start)) 1 = true)
    by (apply ltb_lt, Hlt; now left).
  assert (Hq1 : frameQueue (frame route t c) = [(nextHandle c, start)]).
  { rewrite Hf, (Spec.te_queue _ _ _ _ _ E), Hq0, Hb, Hn0. reflexivity. }
  assert (Hn1 : nextHandle (frame route t c) = S (nextHandle c)).
  { rewrite Hf, (tick_below_next route start t c0 Hb), Hn0. reflexivity. }
  assert (Hk1 : cleanupHandle (frame route t c) = Some 1%nat).
  { rewrite Hf, (Spec.te_cleanup _ _ _ _ _ E), Hk0. exact Hk. }
  assert (Hc1 : completions (frame route t c) = completions c).
  { rewrite Hf, (Spec.te_completions _ _ _ _ _ E), Hb.
    unfold completions. rewrite Hl0. lia. }
  destruct ts as [|t' ts'].
  - simpl. exists (nextHandle c). repeat split; assumption.
  - destruct (IH (fun u Hu => Hlt u (or_intror Hu)) (frame route t c)
                (nextHandle c) Hq1) as (h' & H1 & H2 & H3 & H4);
      try lia; try assumption; try discriminate.
    exists h'. repeat split; try assumption. now rewrite H4.
Qed.

(** X11.  On a route whose segment list is stable, a teardown after at
    least one tick has run does not stop the simulation: the cleanup
    cancels the handle of the first request, which has already fired, the
    tick that is queued survives, and the frame at which the fraction
    reaches 1 still updates the cells and calls [onComplete]. *)
Theorem X11_teardown_after_a_tick_does_not_stop_the_run
  (route : Route.t) (start t1 t2 : Q) (more : list Q) :
  0 < Route.duration route ->
  segmentsStable route = true ->
  (forall u, In u (t1 :: more) -> fractionAt route (u - start) < 1) ->
  durationMs route <= t2 - start ->
  let torn := run route start (map Frame (t1 :: more) ++ [Unmount]) in
  (exists h, frameQueue torn = [(h, start)] /\ h <> 1%nat) /\
  completions torn = 0%nat /\
  completions (frame route t2 torn) = 1%nat /\
  progress (frame route t2 torn) == 1.
Proof.
  intros Hd _ Hbelow Hreach torn.
  destruct (mount_queue route start) as (Hq & Hc & _).
  destruct (frames_below_handles route start (t1 :: more) Hbelow
              (mount route start) 1%nat Hq)
    as (h & Hqh & Hh & Hk & Hcomp); try (simpl; lia); try reflexivity;
    try discriminate.
  fold (run route start (map Frame (t1 :: more))) in Hqh, Hk, Hcomp.
  rewrite Hc in Hcomp.
  assert (Htorn : torn = unmount (run route start (map Frame (t1 :: more)))).
  { unfold torn, run. rewrite fold_left_app. reflexivity. }
  assert (Hqt : frameQueue torn = [(h, start)]).
  { rewrite Htorn. unfold unmount. rewrite Hk.
    unfold cancelAnimationFrame, emit. cbn [frameQueue]. rewrite Hqh.
    cbn [filter fst]. destruct (Nat.eqb_spec h 1) as [->|_]; [lia|reflexivity]. }
  assert (Hct : completions torn = 0%nat).
  { rewrite Htorn. unfold unmount. rewrite Hk.
    unfold completions in Hcomp.
    unfold cancelAnimationFrame, emit, completions.
    cbn [log]. rewrite filter_app, length_app, Hcomp. reflexivity. }
  split; [exists h; split; [exact Hqt|lia]|]. split; [exact Hct|].
  pose proof (fractionAt_complete route (t2 - start) Hd Hreach) as Hf.
  destruct (frame_reaching route start t2 h torn Hqt) as (_ & Hc2 & _).
  { rewrite Hf. apply Qle_refl. }
  split; [rewrite Hc2, Hct; reflexivity|].
  destruct (frame_live route t2 start h torn Hqt) as (c0 & Hfr & _).
  rewrite Hfr, (Spec.te_progress _ _ _ _ _ (tick_effect route start t2 c0)).
  exact Hf.
Qed.

Lemma X11_witness :
  completions
    (frame Examples.twoLegs 60000
       (run Examples.twoLegs 0 (map Frame (16 :: [32; 48]) ++ [Unmount])))
  = 1%nat.
Proof.
  refine (proj1 (proj2 (proj2
    (X11_teardown_after_a_tick_does_not_stop_the_run Examples.twoLegs 0 16 60000
       [32; 48] _ _ _ _)))).
  - reflexivity.
  - reflexivity.
  - intros u [<-|[<-|[<-|[]]]]; reflexivity.
  - discriminate.
Defined.

Lemma first_frame_below (route : Route.t) (start t1 : Q) :
  fractionAt route (t1 - start) < 1 ->
  frameQueue (run route start [Frame t1]) = [(2%nat, start)] /\
  nextHandle (run route start [Frame t1]) = 3%nat /\
  cleanupHandle (run route start [Frame t1]) = Some 1%nat /\
  completions (run route start [Frame t1]) = 0%nat.
Proof.
  intro Hlt.
  destruct (mount_queue route start) as (Hq & Hc & _).
  destruct (frame_live route t1 start 1%nat (mount route start) Hq)
    as (c0 & Hf & Hq0 & Hl0 & Hn0 & _ & Hk0).
  pose proof (tick_effect route start t1 c0) as E.
  assert (Hb : Js.ltb (fractionAt route (t1 - start)) 1 = true)
    by now apply ltb_lt.
  change (run route start [Frame t1]) with (frame route t1 (mount route start)).
  rewrite Hf, (Spec.te_queue _ _ _ _ _ E), (Spec.te_cleanup _ _ _ _ _ E),
    (Spec.te_completions _ _ _ _ _ E), (tick_below_next route start t1 c0 Hb),
    Hb, Hq0, Hn0, Hk0.
  unfold completions. rewrite Hl0. repeat split; reflexivity.
Qed.

(** X12.  When the effect runs again (one of [onComplete],
    [route.distance], [route.duration], [segments] changed between two
    renders): before the first frame the queued tick is withdrawn and the
    simulation starts over from the new instant; after a tick has run the
    old tick stays queued beside the new one, and once the planned duration
    has elapsed for both, one frame calls [onComplete] twice. *)
Theorem X12_second_run_of_the_effect
  (route : Route.t) (start t1 again t2 : Q) :
  0 < Route.duration route ->
  fractionAt route (t1 - start) < 1 ->
  durationMs route <= t2 - start ->
  durationMs route <= t2 - again ->
  frameQueue (rerunEffect again (mount route start)) = [(2%nat, again)] /\
  frameQueue (rerunEffect again (run route start [Frame t1]))
    = [(2%nat, start); (3%nat, again)] /\
  completions (frame route t2 (rerunEffect again (run route start [Frame t1])))
    = 2%nat.
Proof.
  intros Hd Hlt Hr1 Hr2.
  destruct (first_frame_below route start t1 Hlt) as (Hq & Hn & Hk & Hc).
  split; [reflexivity|].
  assert (Hq2 : frameQueue (rerunEffect again (run route start [Frame t1]))
                = [(2%nat, start); (3%nat, again)]).
  { unfold rerunEffect, unmount. rewrite Hk.
    unfold runEffect, requestAnimationFrame, cancelAnimationFrame, emit.
    cbn [frameQueue nextHandle]. rewrite Hq, Hn. reflexivity. }
  assert (Hc2 : completions (rerunEffect again (run route start [Frame t1])) = 0%nat).
  { unfold completions in *. unfold rerunEffect, unmount. rewrite Hk.
    unfold runEffect, requestAnimationFrame, cancelAnimationFrame, emit.
    cbn [log]. rewrite !filter_app, !length_app, Hc. reflexivity. }
  split; [exact Hq2|].
  unfold frame. rewrite Hq2. cbn [fold_left snd].
  match goal with
  | |- completions (tick route again t2 (tick route start t2 ?c0)) = _ =>
      pose proof (tick_effect route start t2 c0) as E1;
      pose proof (tick_effect route again t2 (tick route start t2 c0)) as E2;
      assert (Hc0 : completions c0 = 0%nat) by exact Hc2
  end.
  assert (Hb1 : Js.ltb (fractionAt route (t2 - start)) 1 = false).
  { apply ltb_ge. rewrite (fractionAt_complete route _ Hd Hr1). apply Qle_refl. }
  assert (Hb2 : Js.ltb (fractionAt route (t2 - again)) 1 = false).
  { apply ltb_ge. rewrite (fractionAt_complete route _ Hd Hr2). apply Qle_refl. }
  rewrite (Spec.te_completions _ _ _ _ _ E2), (Spec.te_completions _ _ _ _ _ E1),
    Hb1, Hb2, Hc0. reflexivity.
Qed.

Lemma X12_witness :
  completions
    (frame Examples.twoLegs 70000
       (rerunEffect 5000 (run Examples.twoLegs 0 [Frame 16])))
  = 2%nat.
Proof.
  refine (proj2 (proj2
    (X12_second_run_of_the_effect Examples.twoLegs 0 16 5000 70000 _ _ _ _)));
    try reflexivity; discriminate.
Defined.

(** ** The geometry resolver, case by case *)

Lemma precomputedPath_none (p : Props) :
  precomputedPath p = None <->
  selectedRoute p = None \/
  (exists r, selectedRoute p = Some r /\
             (Route.pathCoordinates r = None \/ Route.pathCoordinates r = Some [])).
Proof.
  unfold precomputedPath. destruct (selectedRoute p) as [r|].
  - destruct (Route.pathCoordinates r) as [[|q qs]|] eqn:E.
    + split; [|reflexivity]. intros _. right. exists r. auto.
    + split; [discriminate|].
      intros [H|(r' & H & [H'|H'])]; [discriminate| |];
        injection H as <-; congruence.
    + split; [|reflexivity]. intros _. right. exists r. auto.
  - split; [now left|reflexivity].
Qed.

(** X13.  A route that carries a path of at least one point gets exactly
    that path as its line: no request is issued, so no outcome of a lookup
    matters, whatever the position of the user, the destination and the
    line stored before; nothing is logged. *)
Theorem X13_precomputed_path_is_used_verbatim
  (p : Props) (s : State) (r : Route.t) (path : list LatLngPoint)
  (o : FetchOutcome) :
  selectedRoute p = Some r ->
  Route.pathCoordinates r = Some path ->
  path <> [] ->
  snd (resolveRoute p s) = None /\
  routeLine (fst (resolveRoute p s)) = path /\
  routeLine (resolveWith p o s) = path /\
  console (resolveWith p o s) = console s.
Proof.
  intros Hr Hp Hne.
  assert (Hpre : precomputedPath p = Some path).
  { unfold precomputedPath. rewrite Hr, Hp.
    destruct path; [contradiction|reflexivity]. }
  unfold resolveWith, resolveRoute. rewrite Hpre. simpl.
  repeat split; reflexivity.
Qed.

Lemma X13_witness :
  routeLine
    (resolveWith (Examples.props Examples.withPath None) (Rejected "TypeError")
       initial)
  = Examples.threePoints.
Proof.
  refine (proj1 (proj2 (proj2
    (X13_precomputed_path_is_used_verbatim
       (Examples.props Examples.withPath None) initial Examples.withPath
       Examples.threePoints (Rejected "TypeError") _ _ _))));
    try reflexivity; discriminate.
Defined.

(** X14.  Without a precomputed path (no route, no path, or a path of no
    points) and without the position of the user or without a destination,
    the line is reset to the empty sequence, also when a line was stored
    before, and no request is issued; a geolocation error leaves the
    position unknown and so leads here. *)
Theorem X14_missing_input_clears_the_line
  (p : Props) (s : State) (o : FetchOutcome) :
  precomputedPath p = None ->
  userLocation s = None \/ destinationPoint p = None ->
  snd (resolveRoute p s) = None /\
  routeLine (resolveWith p o s) = [] /\
  console (resolveWith p o s) = console s /\
  userLocation (geolocated None s) = userLocation s /\
  routeLine (resolveWith p o (geolocated None s)) = [].
Proof.
  intros Hpre Hmiss.
  unfold resolveWith, resolveRoute. rewrite Hpre.
  cbn [geolocated consoleError userLocation routeLine].
  destruct (userLocation s) as [u|], (destinationPoint p) as [d|];
    destruct Hmiss as [H|H]; try discriminate; simpl; repeat split; reflexivity.
Qed.

Lemma X14_witness :
  routeLine
    (resolveWith (Examples.props Examples.withoutPath None) (Json None)
       (geolocated None
          (fst (resolveRoute (Examples.props Examples.withPath None) initial))))
  = [].
Proof.
  refine (proj1 (proj2
    (X14_missing_input_clears_the_line
       (Examples.props Examples.withoutPath None)
       (geolocated None
          (fst (resolveRoute (Examples.props Examples.withPath None) initial)))
       (Json None) _ _))).
  - reflexivity.
  - left. reflexivity.
Defined.

(** X15.  With the position of the user and a destination and no
    precomputed path, one request goes out from the one to the other; the
    coordinates of a successful answer, [[lng, lat]] pairs, become the line
    point by point with the two axes swapped, in the same order, so reading
    [(lng, lat)] off the line gives the answer back; nothing is logged. *)
Theorem X15_successful_lookup_swaps_axes
  (p : Props) (s : State) (u d : LatLngPoint) (coordinates : list (Q * Q)) :
  precomputedPath p = None ->
  userLocation s = Some u ->
  destinationPoint p = Some d ->
  let s' := resolveWith p (Json (Some coordinates)) s in
  resolveRoute p s = (s, Some {| origin := u; target := d |}) /\
  map (fun q => (lng q, lat q)) (routeLine s') = coordinates /\
  List.length (routeLine s') = List.length coordinates /\
  (forall i c, nth_error coordinates i = Some c ->
               nth_error (routeLine s') i = Some {| lat := snd c; lng := fst c |}) /\
  console s' = console s.
Proof.
  intros Hpre Hu Hd s'.
  assert (Hr : resolveRoute p s = (s, Some {| origin := u; target := d |})).
  { unfold resolveRoute. now rewrite Hpre, Hu, Hd. }
  assert (Hs' : routeLine s' =
                map (fun c => {| lat := snd c; lng := fst c |}) coordinates).
  { unfold s', resolveWith. rewrite Hr. reflexivity. }
  split; [exact Hr|]. rewrite Hs'. split; [|split; [|split]].
  - rewrite map_map. simpl.
    rewrite (map_ext _ (fun c => c)) by (intros [a b]; reflexivity).
    apply map_id.
  - apply length_map.
  - intros i c Hc. rewrite nth_error_map, Hc. reflexivity.
  - unfold s', resolveWith. rewrite Hr. reflexivity.
Qed.

Lemma X15_witness :
  map (fun q => (lng q, lat q))
    (routeLine
       (resolveWith (Examples.props Examples.withoutPath None)
          (Json (Some [(1, 1); (3 # 2, 3 # 2); (2, 2)]))
          (geolocated (Some (Examples.pt 1 1)) initial)))
  = [(1, 1); (3 # 2, 3 # 2); (2, 2)].
Proof.
  refine (proj1 (proj2
    (X15_successful_lookup_swaps_axes
       (Examples.props Examples.withoutPath None)
       (geolocated (Some (Examples.pt 1 1)) initial)
       (Examples.pt 1 1) (Examples.pt 5 5)
       [(1, 1); (3 # 2, 3 # 2); (2, 2)] _ _ _))); reflexivity.
Defined.

(** X16.  The resolver touches the line and the console only: the position
    of the user, the map, the layers, the first-draw flag and the last
    applied token come out as they went in, and console entries are only
    ever added.  A request that was aborted changes nothing at all. *)
Theorem X16_resolver_leaves_the_rest_alone
  (p : Props) (s : State) (o : FetchOutcome) :
  userLocation (resolveWith p o s) = userLocation s /\
  mapRef (resolveWith p o s) = mapRef s /\
  layerGroupRef (resolveWith p o s) = layerGroupRef s /\
  firstDrawRef (resolveWith p o s) = firstDrawRef s /\
  lastRecenterTokenRef (resolveWith p o s) = lastRecenterTokenRef s /\
  (exists added, console (resolveWith p o s) = console s ++ added) /\
  (snd (resolveRoute p s) <> None ->
   resolveWith p (Rejected "AbortError") s = s).
Proof.
  unfold resolveWith, resolveRoute.
  destruct (precomputedPath p) as [path|];
    destruct (userLocation s) as [u|] eqn:Hu;
    destruct (destinationPoint p) as [d|];
    destruct o as [name|[coordinates|]]; simpl;
    try destruct (String.eqb name "AbortError"); simpl; rewrite ?Hu;
    repeat split; try reflexivity;
    try (intro H; contradiction);
    first [ exists []; now rewrite app_nil_r | eexists; reflexivity ].
Qed.

(** ** Where the transit stops land *)

Lemma project_nth (coords : list LatLngPoint) (modes : list string)
  (i : nat) (mode : string) :
  nth_error modes i = Some mode ->
  nth_error (project coords modes) i =
    Some {| point :=
              nth_error coords
                (Nat.min (i * Nat.max 1 (List.length coords / List.length modes))
                         (List.length coords - 1));
            icon := iconFor mode |}.
Proof.
  intro H. unfold project. rewrite (mapWithIndex_nth _ _ _ _ _ H).
  now rewrite Nat.add_0_l.
Qed.

Lemma project_length (coords : list LatLngPoint) (modes : list string) :
  List.length (project coords modes) = List.length modes.
Proof. apply mapWithIndex_length. Qed.

Lemma transitStops_project (p : Props) (r : Route.t)
  (line : list LatLngPoint) (modes : list string) :
  selectedRoute p = Some r ->
  Route.transportModes r = Some modes ->
  modes <> [] -> stopCoords r line <> [] ->
  transitStops p line = project (stopCoords r line) modes.
Proof.
  intros Hr Hm Hmodes Hcoords. unfold transitStops. rewrite Hr, Hm.
  destruct modes as [|m ms]; [contradiction|].
  destruct (stopCoords r line); [contradiction|reflexivity].
Qed.

(** X17.  The projector yields no stop exactly when there is no route, the
    route has no labels, or there is no point to put them on (the route's
    own path, or else the resolved line, is empty). *)
Theorem X17_no_stops_exactly_without_labels_or_points
  (p : Props) (line : list LatLngPoint) :
  transitStops p line = [] <->
  selectedRoute p = None \/
  (exists r, selectedRoute p = Some r /\
             (Route.transportModes r = None \/
              Route.transportModes r = Some [] \/
              stopCoords r line = [])).
Proof.
  unfold transitStops. destruct (selectedRoute p) as [r|].
  - destruct (Route.transportModes r) as [[|m ms]|] eqn:Em.
    + split; [|reflexivity]. intros _. right. exists r. auto.
    + destruct (stopCoords r line) as [|q qs] eqn:Ec.
      * split; [|reflexivity]. intros _. right. exists r. auto.
      * split.
        -- intro H. apply (f_equal (@List.length _)) in H.
           rewrite project_length in H. discriminate.
        -- intros [H|(r' & H & [H'|[H'|H']])]; [discriminate| | |];
             injection H as <-; congruence.
    + split; [|reflexivity]. intros _. right. exists r. auto.
  - split; [now left|reflexivity].
Qed.

(** X18.  Every stop sits on a point of the path, the first stop on the
    first point, and the stops follow the path: a later label never lands
    on an earlier point than a label before it. *)
Theorem X18_stops_lie_on_the_path_in_order
  (p : Props) (r : Route.t) (line : list LatLngPoint) :
  selectedRoute p = Some r ->
  let coords := stopCoords r line in
  let stops := transitStops p line in
  (forall stop, In stop stops ->
                exists q, point stop = Some q /\ In q coords) /\
  (forall stop rest, stops = stop :: rest -> point stop = nth_error coords 0) /\
  (forall i j a b,
      (i <= j)%nat -> nth_error stops i = Some a -> nth_error stops j = Some b ->
      exists ka kb, (ka <= kb)%nat /\
                    point a = nth_error coords ka /\
                    point b = nth_error coords kb).
Proof.
  intros Hr coords stops.
  destruct (Route.transportModes r) as [[|m ms]|] eqn:Em;
    try (assert (Hnil : stops = [])
           by (unfold stops, transitStops; rewrite Hr, Em; reflexivity);
         rewrite Hnil; split; [intros ? []|split; [discriminate|]];
         intros [|i] j a b _ H; discriminate).
  assert (Hcase : coords = [] \/ coords <> []).
  { unfold coords. destruct (stopCoords r line); [now left|right; discriminate]. }
  destruct Hcase as [Ec|Ec].
  { assert (Hnil : stops = []).
    { unfold stops, transitStops. rewrite Hr, Em. fold coords. now rewrite Ec. }
    rewrite Hnil. split; [intros ? []|split; [discriminate|]].
    intros [|i] j a b _ H; discriminate. }
  assert (Hstops : stops = project coords (m :: ms)).
  { apply (transitStops_project p r line (m :: ms) Hr Em); [discriminate|exact Ec]. }
  rewrite Hstops.
  assert (Hget : forall i a, nth_error (project coords (m :: ms)) i = Some a ->
                 point a =
                   nth_error coords
                     (Nat.min (i * Nat.max 1 (List.length coords / List.length (m :: ms)))
                              (List.length coords - 1))).
  { intros i a Ha.
    assert (Hi : (i < List.length (m :: ms))%nat).
    { rewrite <- (project_length coords). apply nth_error_Some. congruence. }
    destruct (nth_error (m :: ms) i) as [mode|] eqn:Hm;
      [|apply nth_error_None in Hm; lia].
    rewrite (project_nth coords (m :: ms) i mode Hm) in Ha.
    injection Ha as <-. reflexivity. }
  split; [|split].
  - intros stop Hin. apply In_nth_error in Hin. destruct Hin as [i Hi].
    rewrite (Hget i stop Hi).
    destruct (anchor_in_range coords
                (i * Nat.max 1 (List.length coords / List.length (m :: ms))))
      as [x Hx]; [exact Ec|].
    exists x. split; [exact Hx|]. eapply nth_error_In. exact Hx.
  - intros stop rest Heq.
    assert (H0 : nth_error (project coords (m :: ms)) 0 = Some stop)
      by (rewrite Heq; reflexivity).
    rewrite (Hget 0%nat stop H0). reflexivity.
  - intros i j a b Hij Ha Hb.
    eexists. eexists. split; [|split; [exact (Hget i a Ha)|exact (Hget j b Hb)]].
    apply Nat.min_le_compat_r. apply Nat.mul_le_mono_r. exact Hij.
Qed.

Lemma X18_witness :
  exists q,
    point {| point := nth_error Examples.tenPoints 3; icon := bus |} = Some q /\
    In q Examples.tenPoints.
Proof.
  refine (proj1
    (X18_stops_lie_on_the_path_in_order
       (Examples.props
          (Route.mk "r5" calm 10 (Some 1) None
             (Some ["Walk"; "Bus 12"; "MRT Circle"]%string) None
             (Some Examples.tenPoints)) None)
       (Route.mk "r5" calm 10 (Some 1) None
          (Some ["Walk"; "Bus 12"; "MRT Circle"]%string) None
          (Some Examples.tenPoints)) [] _)
    {| point := nth_error Examples.tenPoints 3; icon := bus |} _).
  - reflexivity.
  - right. left. reflexivity.
Defined.

(** X19.  With at most as many labels as points, no stop is clamped: label
    [i] sits at index [i * floor(points / labels)], inside the path, and two
    different labels sit at two different indices.  With more labels than
    points the step is 1, label [i] sits at index [min(i, points - 1)], and
    every label from index [points - 1] on sits on the last point. *)
Theorem X19_stops_spread_or_pile_up
  (coords : list LatLngPoint) (modes : list string) :
  coords <> [] -> modes <> [] ->
  let n := List.length coords in
  let k := List.length modes in
  ((k <= n)%nat ->
   (forall i mode,
       nth_error modes i = Some mode ->
       (i * (n / k) < n)%nat /\
       nth_error (project coords modes) i =
         Some {| point := nth_error coords (i * (n / k)); icon := iconFor mode |}) /\
   (forall i j, (i < k)%nat -> (j < k)%nat -> i <> j ->
                (i * (n / k))%nat <> (j * (n / k))%nat)) /\
  ((n < k)%nat ->
   (forall i mode,
       nth_error modes i = Some mode ->
       nth_error (project coords modes) i =
         Some {| point := nth_error coords (Nat.min i (n - 1));
                 icon := iconFor mode |}) /\
   (forall i mode,
       (n - 1 <= i)%nat ->
       nth_error modes i = Some mode ->
       nth_error (project coords modes) i =
         Some {| point := nth_error coords (n - 1); icon := iconFor mode |})).
Proof.
  intros Hc Hm n k.
  assert (Hn : (0 < n)%nat) by (unfold n; destruct coords; [contradiction|simpl; lia]).
  assert (Hk : (0 < k)%nat) by (unfold k; destruct modes; [contradiction|simpl; lia]).
  split.
  - intro Hle.
    assert (Hstep : (1 <= n / k)%nat) by (apply Nat.div_str_pos; lia).
    assert (Hmul : (k * (n / k) <= n)%nat) by (apply Nat.Div0.mul_div_le).
    split.
    + intros i mode Hi.
      assert (Hik : (i < k)%nat) by (apply nth_error_Some; congruence).
      assert (Hin : (i * (n / k) < n)%nat) by nia.
      split; [exact Hin|].
      rewrite (project_nth coords modes i mode Hi). fold n k.
      rewrite (Nat.max_r 1 (n / k)) by exact Hstep.
      rewrite Nat.min_l by lia. reflexivity.
    + intros i j Hi Hj Hneq. nia.
  - intro Hlt.
    assert (Hstep : (n / k = 0)%nat) by (apply Nat.div_small; exact Hlt).
    assert (Hget : forall i mode,
               nth_error modes i = Some mode ->
               nth_error (project coords modes) i =
                 Some {| point := nth_error coords (Nat.min i (n - 1));
                         icon := iconFor mode |}).
    { intros i mode Hi. rewrite (project_nth coords modes i mode Hi). fold n k.
      rewrite Hstep. simpl Nat.max. now rewrite Nat.mul_1_r. }
    split; [exact Hget|].
    intros i mode Hge Hi. rewrite (Hget i mode Hi).
    now rewrite Nat.min_r by exact Hge.
Qed.

Lemma X19_witness :
  nth_error
    (project Examples.threePoints ["Walk"; "Bus"; "MRT"; "Walk"; "Bus"]%string) 4
  = Some {| point := nth_error Examples.threePoints (3 - 1); icon := bus |}.
Proof.
  refine (proj2 (proj2
    (X19_stops_spread_or_pile_up Examples.threePoints
       ["Walk"; "Bus"; "MRT"; "Walk"; "Bus"]%string _ _) _) 4%nat "Bus"%string _ _).
  - discriminate.
  - discriminate.
  - simpl. lia.
  - simpl. lia.
  - reflexivity.
Defined.

(** ** The map controller over several redraws *)

Lemma drawLayers_setRefs (p : Props) (s : State) (m : option LMap)
  (g : option (list Layer)) (first : bool) (token : option Z) :
  drawLayers p (setRefs m g first token s) = drawLayers p s.
Proof. reflexivity. Qed.

Lemma recenterCalls_none (p : Props) (s : State) :
  firstDrawRef s = false -> forceRecenter p s = false -> recenterCalls p s = [].
Proof.
  intros Hf Hforce. unfold recenterCalls, shouldRecenter.
  now rewrite Hf, Hforce.
Qed.

Lemma recenterCalls_one (p : Props) (s : State) :
  shouldRecenter p s = true ->
  recenterCalls p s =
    [match polylineBounds s with
     | Some b => FitBounds b (32, 32)%Z
     | None => SetView (centerArray p s) (if forceRecenter p s then 16 else 14)
     end].
Proof.
  intro H. unfold recenterCalls. rewrite H.
  destruct (polylineBounds s); reflexivity.
Qed.

(** X20.  Redrawing is idempotent: a second redraw with the same inputs
    leaves the state exactly as the first one left it, so layers never pile
    up and the viewport is not touched again; the layers after a redraw are
    those of the current inputs, whatever was drawn before. *)
Theorem X20_redraw_is_idempotent (p : Props) (s s' : State) :
  Spec.mounted s ->
  redraw p s = Some s' ->
  redraw p s' = Some s' /\
  layerGroupRef s' = drawLayers p s.
Proof.
  intros (Hm & Hg) Hr. unfold redraw in Hr.
  destruct (mapRef s) as [m|] eqn:Em; [|contradiction].
  destruct (layerGroupRef s) as [g|] eqn:Eg; [|contradiction].
  destruct (drawLayers p s) as [layers|] eqn:Ed; [|discriminate].
  injection Hr as <-. split; [|reflexivity].
  unfold redraw. cbn [mapRef layerGroupRef setRefs].
  rewrite drawLayers_setRefs, Ed.
  assert (Hforce :
            forceRecenter p
              (setRefs
                 (Some {| initialCenter := initialCenter m;
                          initialZoom := initialZoom m;
                          viewCalls := viewCalls m ++ recenterCalls p s |})
                 (Some layers) false
                 (if forceRecenter p s then recenterToken p
                  else lastRecenterTokenRef s) s) = false).
  { unfold forceRecenter. cbn [lastRecenterTokenRef setRefs].
    destruct (recenterToken p) as [t|]; [|reflexivity].
    destruct (lastRecenterTokenRef s) as [l|].
    - destruct (Z.eqb t l) eqn:E; simpl; [now rewrite E|now rewrite Z.eqb_refl].
    - simpl. now rewrite Z.eqb_refl. }
  match type of Hforce with
  | forceRecenter p ?s1 = false =>
      assert (Hcalls : recenterCalls p s1 = [])
        by (apply recenterCalls_none; [reflexivity|exact Hforce]);
      rewrite Hcalls, Hforce
  end.
  cbn [initialCenter initialZoom viewCalls lastRecenterTokenRef setRefs].
  rewrite app_nil_r. reflexivity.
Qed.

Lemma X20_witness :
  exists s',
    redraw (Examples.props Examples.withPath (Some 1%Z)) Examples.drawnOnce
      = Some s' /\
    redraw (Examples.props Examples.withPath (Some 1%Z)) s' = Some s'.
Proof.
  destruct (redraw (Examples.props Examples.withPath (Some 1%Z)) Examples.drawnOnce)
    as [s'|] eqn:E; [|discriminate E].
  exists s'. split; [reflexivity|].
  refine (proj1 (X20_redraw_is_idempotent
                   (Examples.props Examples.withPath (Some 1%Z))
                   Examples.drawnOnce s' _ E)).
  split; discriminate.
Defined.

(** X21.  On a controller that has not applied any token yet, a redraw
    with a numeric token is a forced recenter.  So when the map has just
    been created, at zoom 14, the first redraw of a screen that passes a
    number sets the view at zoom 16 if there is no line of two points, and
    fits the line otherwise. *)
Theorem X21_first_redraw_with_a_number_is_forced
  (p : Props) (s : State) (t : Z) :
  mapRef s = None ->
  lastRecenterTokenRef s = None ->
  recenterToken p = Some t ->
  let s0 := rearmFirstDraw (initMap true p s) in
  forceRecenter p s0 = true /\
  (exists m, mapRef s0 = Some m /\ initialZoom m = 14%Z /\ viewCalls m = []) /\
  exists s',
    redraw p s0 = Some s' /\
    lastRecenterTokenRef s' = Some t /\
    ((List.length (routeLine s) < 2)%nat ->
     Spec.viewCallsOf s' = [SetView (centerArray p s) 16]) /\
    ((2 <= List.length (routeLine s))%nat ->
     Spec.viewCallsOf s' =
       [FitBounds (getBounds (map (fun q => (lat q, lng q)) (routeLine s)))
          (32, 32)%Z]).
Proof.
  intros Hmap Hlast Htoken s0.
  assert (Hs0 : s0 = setRefs
                       (Some {| initialCenter := centerArray p s;
                                initialZoom := 14; viewCalls := [] |})
                       (Some []) true None s).
  { unfold s0, rearmFirstDraw, initMap. rewrite Hmap.
    cbn [setRefs mapRef layerGroupRef lastRecenterTokenRef firstDrawRef].
    now rewrite Hlast. }
  clearbody s0. subst s0.
  assert (Hforce :
            forceRecenter p
              (setRefs
                 (Some {| initialCenter := centerArray p s;
                          initialZoom := 14; viewCalls := [] |})
                 (Some []) true None s) = true).
  { unfold forceRecenter. now rewrite Htoken. }
  split; [exact Hforce|]. split.
  { eexists. split; [reflexivity|]. split; reflexivity. }
  match type of Hforce with
  | forceRecenter p ?s0 = true =>
      destruct (redraw_mounted p s0) as (s' & Hr & _ & Hcalls & _ & Hl & _);
        [split; discriminate|];
      rewrite (recenterCalls_one p s0) in Hcalls
        by (unfold shouldRecenter; rewrite Hforce; apply orb_true_r)
  end.
  rewrite Hforce in Hcalls, Hl.
  exists s'. split; [exact Hr|]. split; [now rewrite Hl|].
  rewrite Hcalls. unfold polylineBounds.
  cbn [Spec.viewCallsOf mapRef setRefs viewCalls routeLine app].
  split; intro Hlen.
  - destruct (Nat.ltb_spec 1 (List.length (routeLine s))); [lia|reflexivity].
  - destruct (Nat.ltb_spec 1 (List.length (routeLine s))); [reflexivity|lia].
Qed.

Lemma X21_witness :
  forceRecenter (Examples.props Examples.withoutPath (Some 0%Z))
    (rearmFirstDraw
       (initMap true (Examples.props Examples.withoutPath (Some 0%Z)) initial))
  = true.
Proof.
  refine (proj1 (X21_first_redraw_with_a_number_is_forced
                   (Examples.props Examples.withoutPath (Some 0%Z)) initial 0
                   _ _ _)); reflexivity.
Defined.

(** X22.  When the first-draw flag is armed again (another route or
    destination) and the token has not changed, the next redraw recenters
    once, at zoom 14 when there is no line of two points, and the redraw
    after it does not recenter. *)
Theorem X22_rearmed_first_draw_recenters_once
  (p : Props) (s : State) (t : Z) :
  Spec.mounted s ->
  recenterToken p = Some t ->
  lastRecenterTokenRef s = Some t ->
  exists s1 s2,
    redraw p (rearmFirstDraw s) = Some s1 /\
    (exists call, Spec.viewCallsOf s1 = Spec.viewCallsOf s ++ [call]) /\
    ((List.length (routeLine s) < 2)%nat ->
     Spec.viewCallsOf s1 = Spec.viewCallsOf s ++ [SetView (centerArray p s) 14]) /\
    lastRecenterTokenRef s1 = Some t /\
    redraw p s1 = Some s2 /\
    Spec.viewCallsOf s2 = Spec.viewCallsOf s1.
Proof.
  intros Hmounted Htoken Hlast.
  assert (Hm0 : Spec.mounted (rearmFirstDraw s)) by exact Hmounted.
  assert (Hforce : forceRecenter p (rearmFirstDraw s) = false).
  { unfold forceRecenter, rearmFirstDraw. cbn [lastRecenterTokenRef setRefs].
    now rewrite Htoken, Hlast, Z.eqb_refl. }
  destruct (redraw_mounted p (rearmFirstDraw s) Hm0)
    as (s1 & Hr1 & Hm1 & Hcalls1 & Hfirst1 & Hlast1 & _).
  rewrite Hforce in Hlast1.
  change (lastRecenterTokenRef (rearmFirstDraw s)) with (lastRecenterTokenRef s)
    in Hlast1.
  assert (Hforce1 : forceRecenter p s1 = false).
  { unfold forceRecenter. now rewrite Htoken, Hlast1, Hlast, Z.eqb_refl. }
  destruct (redraw_mounted p s1 Hm1) as (s2 & Hr2 & _ & Hcalls2 & _).
  rewrite (recenterCalls_none p s1 Hfirst1 Hforce1), app_nil_r in Hcalls2.
  rewrite (recenterCalls_one p (rearmFirstDraw s)) in Hcalls1 by reflexivity.
  rewrite Hforce in Hcalls1.
  exists s1, s2. split; [exact Hr1|]. split; [eexists; exact Hcalls1|].
  split; [|split; [now rewrite Hlast1|split; [exact Hr2|exact Hcalls2]]].
  intro Hlen. rewrite Hcalls1.
  unfold polylineBounds, rearmFirstDraw. cbn [routeLine setRefs].
  destruct (Nat.ltb_spec 1 (List.length (routeLine s))); [lia|reflexivity].
Qed.

Lemma X22_witness :
  exists s1 s2,
    redraw (Examples.props Examples.withPath (Some 0%Z))
      (rearmFirstDraw Examples.drawnOnce) = Some s1 /\
    redraw (Examples.props Examples.withPath (Some 0%Z)) s1 = Some s2 /\
    Spec.viewCallsOf s2 = Spec.viewCallsOf s1.
Proof.
  destruct (X22_rearmed_first_draw_recenters_once
              (Examples.props Examples.withPath (Some 0%Z)) Examples.drawnOnce 0)
    as (s1 & s2 & H1 & _ & _ & _ & H2 & H3).
  - split; discriminate.
  - reflexivity.
  - reflexivity.
  - exists s1, s2. repeat split; assumption.
Defined.

(** X23.  A redraw while there is no map (before it is created, or after
    it was removed) does nothing and uses up neither the first draw nor a
    token: once the map is created, the next redraw recenters exactly once.
    The map is created once; a further run of its effect keeps it. *)
Theorem X23_redraw_without_a_map_is_deferred (p : Props) (s : State) :
  mapRef s = None ->
  firstDrawRef s = true ->
  redraw p s = Some s /\
  (forall s0, redraw p (removeMap s0) = Some (removeMap s0)) /\
  initMap false p s = s /\
  (forall ready p', initMap ready p' (initMap true p s) = initMap true p s) /\
  exists s1 call,
    redraw p (initMap true p s) = Some s1 /\
    Spec.viewCallsOf s1 = [call] /\
    firstDrawRef s1 = false.
Proof.
  intros Hmap Hfirst.
  split; [unfold redraw; now rewrite Hmap|].
  split; [reflexivity|].
  split; [reflexivity|].
  split.
  { intros ready p'. unfold initMap at 1. destruct ready; [|reflexivity].
    unfold initMap. rewrite Hmap. reflexivity. }
  assert (Hinit : initMap true p s =
                  setRefs
                    (Some {| initialCenter := centerArray p s;
                             initialZoom := 14; viewCalls := [] |})
                    (Some []) (firstDrawRef s) (lastRecenterTokenRef s) s).
  { unfold initMap. now rewrite Hmap. }
  destruct (redraw_mounted p (initMap true p s))
    as (s1 & Hr & _ & Hcalls & Hf1 & _).
  { rewrite Hinit. split; discriminate. }
  rewrite (recenterCalls_one p (initMap true p s)) in Hcalls.
  - exists s1. eexists. split; [exact Hr|]. split; [|exact Hf1].
    rewrite Hcalls, Hinit. reflexivity.
  - unfold shouldRecenter. rewrite Hinit. cbn [firstDrawRef setRefs].
    now rewrite Hfirst.
Qed.

Lemma X23_witness :
  redraw (Examples.props Examples.withoutPath None) initial = Some initial.
Proof.
  refine (proj1 (X23_redraw_without_a_map_is_deferred
                   (Examples.props Examples.withoutPath None) initial _ _));
    reflexivity.
Defined.

(** X24.  Without a token ([recenterToken] is [undefined]) a redraw is
    never forced: the last applied token stays, the viewport is touched on
    a first draw only, and then at zoom 14 when there is no line of two
    points. *)
Theorem X24_no_token_never_forces (p : Props) (s : State) :
  Spec.mounted s ->
  recenterToken p = None ->
  exists s',
    redraw p s = Some s' /\
    lastRecenterTokenRef s' = lastRecenterTokenRef s /\
    (firstDrawRef s = false -> Spec.viewCallsOf s' = Spec.viewCallsOf s) /\
    (firstDrawRef s = true -> (List.length (routeLine s) < 2)%nat ->
     Spec.viewCallsOf s' = Spec.viewCallsOf s ++ [SetView (centerArray p s) 14]) /\
    (firstDrawRef s = true -> (2 <= List.length (routeLine s))%nat ->
     Spec.viewCallsOf s' =
       Spec.viewCallsOf s ++
       [FitBounds (getBounds (map (fun q => (lat q, lng q)) (routeLine s)))
          (32, 32)%Z]).
Proof.
  intros Hmounted Htoken.
  assert (Hforce : forceRecenter p s = false)
    by (unfold forceRecenter; now rewrite Htoken).
  destruct (redraw_mounted p s Hmounted) as (s' & Hr & _ & Hcalls & _ & Hl & _).
  rewrite Hforce in Hl.
  exists s'. split; [exact Hr|]. split; [exact Hl|]. split; [|split].
  - intro Hf. rewrite Hcalls, (recenterCalls_none p s Hf Hforce). apply app_nil_r.
  - intros Hf Hlen. rewrite Hcalls, (recenterCalls_one p s)
      by (unfold shouldRecenter; now rewrite Hf).
    rewrite Hforce. unfold polylineBounds.
    destruct (Nat.ltb_spec 1 (List.length (routeLine s))); [lia|reflexivity].
  - intros Hf Hlen. rewrite Hcalls, (recenterCalls_one p s)
      by (unfold shouldRecenter; now rewrite Hf).
    unfold polylineBounds.
    destruct (Nat.ltb_spec 1 (List.length (routeLine s))); [reflexivity|lia].
Qed.

Lemma X24_witness :
  exists s',
    redraw (Examples.props Examples.withPath None) Examples.drawnOnce = Some s' /\
    lastRecenterTokenRef s' = Some 0%Z.
Proof.
  destruct (X24_no_token_never_forces
              (Examples.props Examples.withPath None) Examples.drawnOnce)
    as (s' & Hr & Hl & _).
  - split; discriminate.
  - reflexivity.
  - exists s'. split; [exact Hr|exact Hl].
Defined.

Lemma last_nonempty_default {A : Type} (l : list A) (z a b : A) :
  last (z :: l) a = last (z :: l) b.
Proof.
  revert z. induction l as [|y l IH]; intro z; [reflexivity|]. exact (IH y).
Qed.

Lemma pressOnce_in_range (t : Z) :
  (0 <= t <= 2 ^ 53)%Z -> (0 <= Spec.pressOnce t <= 2 ^ 53)%Z.
Proof.
  intro H. unfold Spec.pressOnce. destruct (Z.ltb_spec t (2 ^ 53)); lia.
Qed.

(** Each press changes the token until it has reached [2^53]. *)
Lemma tokenChanges_presses (n : nat) :
  forall t : Z,
    (0 <= t <= 2 ^ 53)%Z ->
    Spec.tokenChanges t (Spec.presses t n) =
      Z.to_nat (Z.min (Z.of_nat n) (2 ^ 53 - t)).
Proof.
  induction n as [|n IH]; intros t Ht.
  - cbn [Spec.presses Spec.tokenChanges]. lia.
  - cbn [Spec.presses Spec.tokenChanges].
    rewrite (IH (Spec.pressOnce t) (pressOnce_in_range t Ht)).
    unfold Spec.pressOnce. destruct (Z.ltb_spec t (2 ^ 53)) as [Hlt|Hge].
    + destruct (Z.eqb_spec (t + 1) t) as [Heq|_]; lia.
    + rewrite Z.eqb_refl. lia.
Qed.

(** X25.  Over a series of redraws of a mounted controller that has drawn
    before, the number of viewport calls grows by the number of times the
    token differs from the one before it: the controller reacts to changes
    of the token, not to its value.  Pressing the button [n] times from a
    token [t0] with [0 <= t0 <= 2^53], with a redraw after each press,
    recenters [min(n, 2^53 - t0)] times: [n] times as long as the token
    stays within [2^53], where a press no longer changes it. *)
Theorem X25_one_recenter_per_token_change
  (ps : list Props) (ts : list Z) (t0 : Z) (s : State) :
  Spec.mounted s ->
  firstDrawRef s = false ->
  lastRecenterTokenRef s = Some t0 ->
  map recenterToken ps = map Some ts ->
  exists s',
    Spec.redraws ps s = Some s' /\
    List.length (Spec.viewCallsOf s') =
      (List.length (Spec.viewCallsOf s) + Spec.tokenChanges t0 ts)%nat /\
    lastRecenterTokenRef s' = Some (last ts t0) /\
    (forall n, (0 <= t0 <= 2 ^ 53)%Z -> ts = Spec.presses t0 n ->
               List.length (Spec.viewCallsOf s') =
                 (List.length (Spec.viewCallsOf s) +
                  Z.to_nat (Z.min (Z.of_nat n) (2 ^ 53 - t0)))%nat) /\
    (forall n, (0 <= t0)%Z -> (t0 + Z.of_nat n <= 2 ^ 53)%Z ->
               ts = Spec.presses t0 n ->
               List.length (Spec.viewCallsOf s') =
                 (List.length (Spec.viewCallsOf s) + n)%nat).
Proof.
  intros Hmounted Hfirst Hlast Htokens.
  assert (Hmain : exists s',
             Spec.redraws ps s = Some s' /\
             List.length (Spec.viewCallsOf s') =
               (List.length (Spec.viewCallsOf s) + Spec.tokenChanges t0 ts)%nat /\
             lastRecenterTokenRef s' = Some (last ts t0)).
  { revert ts t0 s Hmounted Hfirst Hlast Htokens.
    induction ps as [|p ps IH]; intros ts t0 s Hmounted Hfirst Hlast Htokens.
    - destruct ts; [|discriminate]. exists s. simpl.
      split; [reflexivity|]. split; [lia|exact Hlast].
    - destruct ts as [|t ts]; [discriminate|].
      simpl in Htokens. injection Htokens as Htoken Hrest.
      destruct (redraw_mounted p s Hmounted)
        as (s1 & Hr & Hm1 & Hcalls & Hf1 & Hl1 & _).
      assert (Hforce : forceRecenter p s = negb (Z.eqb t t0))
        by (unfold forceRecenter; now rewrite Htoken, Hlast).
      assert (Hl1' : lastRecenterTokenRef s1 = Some t).
      { rewrite Hl1, Hforce, Htoken, Hlast.
        destruct (Z.eqb_spec t t0) as [->|_]; reflexivity. }
      destruct (IH ts t s1 Hm1 Hf1 Hl1' Hrest) as (s' & Hrs & Hlen & Hl').
      exists s'. simpl Spec.redraws. rewrite Hr.
      split; [exact Hrs|]. split.
      + rewrite Hlen, Hcalls, length_app. simpl Spec.tokenChanges.
        destruct (Z.eqb t t0) eqn:E.
        * rewrite (recenterCalls_none p s Hfirst) by (rewrite Hforce; reflexivity).
          simpl. lia.
        * rewrite (recenterCalls_one p s)
            by (unfold shouldRecenter; rewrite Hforce; apply orb_true_r).
          simpl. lia.
      + rewrite Hl'. f_equal. destruct ts as [|z ts']; [reflexivity|].
        exact (last_nonempty_default ts' z t t0). }
  destruct Hmain as (s' & Hrs & Hlen & Hl).
  exists s'. split; [exact Hrs|]. split; [exact Hlen|]. split; [exact Hl|].
  split.
  - intros n Ht ->. rewrite Hlen, (tokenChanges_presses n t0 Ht). reflexivity.
  - intros n H0 Hn ->. rewrite Hlen, (tokenChanges_presses n t0) by lia. lia.
Qed.

Lemma X25_witness :
  exists s',
    Spec.redraws
      [Examples.props Examples.withPath (Some 1%Z);
       Examples.props Examples.withPath (Some 1%Z);
       Examples.props Examples.withPath (Some 2%Z)] Examples.drawnOnce = Some s' /\
    List.length (Spec.viewCallsOf s') = 2%nat.
Proof.
  destruct (X25_one_recenter_per_token_change
              [Examples.props Examples.withPath (Some 1%Z);
               Examples.props Examples.withPath (Some 1%Z);
               Examples.props Examples.withPath (Some 2%Z)]
              [1; 1; 2]%Z 0%Z Examples.drawnOnce)
    as (s' & Hr & Hlen & _).
  - split; discriminate.
  - reflexivity.
  - reflexivity.
  - reflexivity.
  - exists s'. split; [exact Hr|exact Hlen].
Defined.

Lemma stopMarkers_length (stops : list TransitStop) (markers : list Layer) :
  stopMarkers stops = Some markers ->
  List.length markers = List.length stops.
Proof.
  revert markers. induction stops as [|stop rest IH]; intros markers H; simpl in H.
  - injection H as <-. reflexivity.
  - destruct (point stop); [|discriminate].
    destruct (stopMarkers rest) as [ms|]; [|discriminate].
    injection H as <-. simpl. now rewrite (IH ms eq_refl).
Qed.

(** X26.  A redraw never throws: whatever the props and the state, every
    transit stop has a point when its marker is drawn.  The layers are, in
    this order, the line when it has two points or more, the marker of the
    user when the position is known, the marker of the destination when
    there is one, and one marker per transit stop. *)
Theorem X26_redraw_never_throws (p : Props) (s : State) :
  redraw p s <> None /\
  exists markers,
    stopMarkers (transitStops p (routeLine s)) = Some markers /\
    List.length markers = List.length (transitStops p (routeLine s)) /\
    drawLayers p s =
      Some
        ((if Nat.ltb 1 (List.length (routeLine s))
          then [Polyline (map (fun q => (lat q, lng q)) (routeLine s))]
          else []) ++
         (match userLocation s with
          | Some u => [Marker (lat u, lng u) UserIcon]
          | None => []
          end) ++
         (match destinationPoint p with
          | Some d => [Marker (lat d, lng d) DestinationIcon]
          | None => []
          end) ++
         markers).
Proof.
  pose proof (stopMarkers_total _ (transitStops_points p (routeLine s))) as Htotal.
  destruct (stopMarkers (transitStops p (routeLine s))) as [markers|] eqn:E;
    [|contradiction].
  split.
  - unfold redraw.
    destruct (mapRef s); [|discriminate].
    destruct (layerGroupRef s); [|discriminate].
    unfold drawLayers. rewrite E. discriminate.
  - exists markers. split; [reflexivity|].
    split; [now apply stopMarkers_length|].
    unfold drawLayers. now rewrite E.
Qed.
